(** * Smart recipe generator: server-side glue

    A shallow embedding of the adapters of the repository that carry
    control flow of their own:

    - [connectDB]            (lib/mongodb.ts, first part)
    - [processImage], [configureS3], [uploadImageToS3], [uploadImagesToS3],
      [uploadAudioToS3]      (lib/mongodb.ts, second part: the S3 uploader)
    - [apiMiddleware]        (lib/apiMiddleware.ts)
    - the [jwt] and [session] callbacks (pages/api/auth/[...nextauth].ts)

    Every call that leaves the process (an HTTPS request, a timer, an S3
    command, [mongoose.connect], [getServerSession], the wrapped route
    handler, the console) is an _effect_: the program is a finite tree whose
    nodes are the effects it performs and whose branches are the answers the
    outside world can give.  A tree is run against an arbitrary environment
    (one after another, or interleaved for [Promise.all]); the theorems
    quantify over every environment. *)

From Stdlib Require Import ZArith String Ascii List Lia Bool DecimalString.
From stdpp Require Import base option list.
From Equations Require Import Equations.

Open Scope Z_scope.

(** ** JavaScript values the code inspects *)

(** An [Error] object: the fields the code reads ([code], [message]) and
    [name], which [Error.prototype.toString] prints. *)
Record JsError : Type := mkJsError {
  name : string;
  code : option string;
  message : string
}.

(** [new Error(msg)] *)
Definition new_Error (msg : string) : JsError :=
  {| name := "Error"; code := None; message := msg |}.

(** [`${error}`]: [Error.prototype.toString]. *)
Definition Error_toString (e : JsError) : string :=
  if String.eqb (name e) "" then message e
  else if String.eqb (message e) "" then name e
  else (name e ++ ": " ++ message e)%string.

(** [s.includes(sub)] *)
Fixpoint includes (s sub : string) : bool :=
  String.prefix sub s ||
  match s with
  | EmptyString => false
  | String _ s' => includes s' sub
  end.

(** [`${z}`] for an integer. *)
Definition show_number (z : Z) : string :=
  NilZero.string_of_int (Z.to_int z).

(** [`${x}`] for a value that may be [undefined]. *)
Definition show_optional {A} (show : A -> string) (x : option A) : string :=
  match x with
  | Some a => show a
  | None => "undefined"%string
  end.

(** Truthiness of a [string | undefined]: [undefined] and [""] are falsy. *)
Definition truthy_string (x : option string) : bool :=
  match x with
  | Some s => negb (String.eqb s "")
  | None => false
  end.

(** [x || fallback] on a [string | undefined]. *)
Definition or_else (x : option string) (fallback : string) : string :=
  match x with
  | Some s => if String.eqb s "" then fallback else s
  | None => fallback
  end.

(** How an awaited promise settles. *)
Inductive settled (A : Type) : Type :=
| Fulfilled (value : A)
| Rejected (reason : JsError).
Arguments Fulfilled {A} value.
Arguments Rejected {A} reason.

(** The three console methods the code calls. *)
Inductive console_method : Type := console_log | console_warn | console_error.

(** ** Programs over a signature of effects *)

Section Programs.

Context {effect : Type}.
Variable answer : effect -> Type.

(** A program returns, throws, or performs an effect and continues with the
    answer.  An [async] function is such a program: [Ret] fulfils its
    promise and [Throw] rejects it. *)
Inductive prog (A : Type) : Type :=
| Ret (a : A)
| Throw (e : JsError)
| Vis (e : effect) (k : answer e -> prog A).
Arguments Ret {A} a.
Arguments Throw {A} e.
Arguments Vis {A} e k.

Fixpoint bind {A B} (p : prog A) (f : A -> prog B) : prog B :=
  match p with
  | Ret a => f a
  | Throw e => Throw e
  | Vis e k => Vis e (fun x => bind (k x) f)
  end.

(** [try { p } catch (error) { h error }] *)
Fixpoint try_catch {A} (p : prog A) (h : JsError -> prog A) : prog A :=
  match p with
  | Ret a => Ret a
  | Throw e => h e
  | Vis e k => Vis e (fun x => try_catch (k x) h)
  end.

(** [await] of a promise whose settlement is known. *)
Definition await {A} (s : settled A) : prog A :=
  match s with
  | Fulfilled v => Ret v
  | Rejected e => Throw e
  end.

(** How a program ends. *)
Inductive completion (A : Type) : Type :=
| Returned (a : A)
| Thrown (e : JsError).
Arguments Returned {A} a.
Arguments Thrown {A} e.

(** The program ended by returning. *)
Definition returns {A} (c : completion A) : Prop :=
  match c with
  | Returned _ => True
  | Thrown _ => False
  end.

(** One effect together with the answer it received. *)
Inductive entry : Type := Entry (e : effect) (x : answer e).

(** The outside world: a state machine that answers each effect. *)
Definition handler (S : Type) : Type := forall e : effect, S -> answer e * S.

Record execution (A S : Type) : Type := mkExecution {
  outcome : completion A;
  trace : list entry;
  final : S
}.
Arguments mkExecution {A S} outcome trace final.
Arguments outcome {A S} _.
Arguments trace {A S} _.
Arguments final {A S} _.

(** Running a program to its end against an environment. *)
Fixpoint run {A S} (h : handler S) (p : prog A) (s : S) : execution A S :=
  match p with
  | Ret a => mkExecution (Returned a) [] s
  | Throw e => mkExecution (Thrown e) [] s
  | Vis e k =>
      let '(x, s1) := h e s in
      let r := run h (k x) s1 in
      mkExecution (outcome r) (Entry e x :: trace r) (final r)
  end.

(** [p] reaches [q] after performing the effects of [tr], answered as
    recorded. *)
Inductive advances {A} : prog A -> list entry -> prog A -> Prop :=
| advances_here p : advances p [] p
| advances_step e k x tr q :
    advances (k x) tr q -> advances (Vis e k) (Entry e x :: tr) q.

(** The program has ended. *)
Definition is_settled {A} (p : prog A) : bool :=
  match p with
  | Vis _ _ => false
  | _ => true
  end.

Definition completion_of {A} (p : prog A) : option (completion A) :=
  match p with
  | Ret a => Some (Returned a)
  | Throw e => Some (Thrown e)
  | Vis _ _ => None
  end.

(** Every way the program can end satisfies [P]. *)
Fixpoint ends_in {A} (P : completion A -> Prop) (p : prog A) : Prop :=
  match p with
  | Ret a => P (Returned a)
  | Throw e => P (Thrown e)
  | Vis e k => forall x, ends_in P (k x)
  end.

(** The program performs at most [n] effects, whatever the answers. *)
Fixpoint within {A} (n : nat) (p : prog A) {struct p} : Prop :=
  match p with
  | Vis e k =>
      match n with
      | O => False
      | S n' => forall x, within n' (k x)
      end
  | _ => True
  end.

(** *** Interleaved execution: [Promise.all] over a list of programs *)

(** The calls in flight, the environment, the effects performed so far
    (each tagged with the index of the call that performed it), and the
    reason of the first call that rejected, if any. *)
Record fanout (A S : Type) : Type := mkFanout {
  tasks : list (prog A);
  world : S;
  history : list (nat * entry);
  first_rejection : option JsError
}.
Arguments mkFanout {A S} tasks world history first_rejection.
Arguments tasks {A S} _.
Arguments world {A S} _.
Arguments history {A S} _.
Arguments first_rejection {A S} _.

Definition rejection_of {A} (p : prog A) : option JsError :=
  match p with
  | Throw e => Some e
  | _ => None
  end.

(** The reason of the first call in the list that has already thrown. *)
Fixpoint first_thrown {A} (ps : list (prog A)) : option JsError :=
  match ps with
  | [] => None
  | p :: ps' =>
      match rejection_of p with
      | Some r => Some r
      | None => first_thrown ps'
      end
  end.

(** All calls are started; none has performed an effect yet. *)
Definition spawn {A S} (ps : list (prog A)) (s : S) : fanout A S :=
  mkFanout ps s [] (first_thrown ps).

(** The event loop lets call [i] perform its next effect.  A call that has
    ended, or an index out of range, leaves everything as it is.  JavaScript
    runs a call without interruption up to its next [await]; the schedules
    here may switch calls after any effect, so every order JavaScript can
    produce is among them. *)
Definition resume {A S} (h : handler S) (i : nat) (c : fanout A S) : fanout A S :=
  match tasks c !! i with
  | Some (Vis e k) =>
      let '(x, s1) := h e (world c) in
      mkFanout (<[i := k x]> (tasks c)) s1 (history c ++ [(i, Entry e x)])
        (match first_rejection c with
         | Some r => Some r
         | None => rejection_of (k x)
         end)
  | _ => c
  end.

(** The event loop follows a schedule: the list of calls it resumes, in
    order. *)
Definition interleave {A S} (h : handler S) (schedule : list nat) (c : fanout A S) : fanout A S :=
  fold_left (fun c i => resume h i c) schedule c.

(** The effects of call [i] in an interleaved history. *)
Definition own_trace (i : nat) (hist : list (nat * entry)) : list entry :=
  snd <$> filter (fun ie => ie.1 = i) hist.

(** Each call is where its own effects, answered as recorded, lead the
    program it started as. *)
Definition tracks {A S} (ps : list (prog A)) (c : fanout A S) : Prop :=
  forall i p, ps !! i = Some p ->
              exists q, tasks c !! i = Some q /\ advances p (own_trace i (history c)) q.

Definition value_of {A} (p : prog A) : option A :=
  match p with
  | Ret a => Some a
  | _ => None
  end.

(** [Promise.all]: rejected as soon as one call rejects, fulfilled with the
    values in the order of the calls once all have fulfilled, and pending
    ([None]) until then. *)
Definition Promise_all {A S} (c : fanout A S) : option (settled (list A)) :=
  match first_rejection c with
  | Some r => Some (Rejected r)
  | None => Fulfilled <$> mapM value_of (tasks c)
  end.

(** A schedule that resumes each of [n] calls [rounds] times, in turn. *)
Definition round_robin (rounds n : nat) : list nat :=
  mjoin (replicate rounds (seq 0 n)).

(** How often a schedule resumes call [i]. *)
Definition turns (i : nat) (schedule : list nat) : nat :=
  length (filter (fun j => j = i) schedule).

(** A world without memory: the answer to an effect depends on the effect
    alone. *)
Definition memoryless {S} (f : forall e : effect, answer e) : handler S :=
  fun e s => (f e, s).

(** The end a program reaches when each effect [e] is answered [f e]. *)
Fixpoint follow {A} (f : forall e : effect, answer e) (p : prog A) : completion A :=
  match p with
  | Ret a => Returned a
  | Throw e => Thrown e
  | Vis e k => follow f (k (f e))
  end.

(** In a world without memory every call heads for the end it would reach
    alone, whatever the order of the turns. *)
Definition heads_for {A S} (f : forall e : effect, answer e) (ps : list (prog A))
  (c : fanout A S) : Prop :=
  forall i p, ps !! i = Some p -> exists q, tasks c !! i = Some q /\ follow f q = follow f p.

End Programs.

Arguments Ret {effect answer A} a.
Arguments Throw {effect answer A} e.
Arguments Vis {effect answer A} e k.
Arguments Returned {A} a.
Arguments Thrown {A} e.
Arguments Entry {effect answer} e x.
Arguments mkExecution {effect answer A S} outcome trace final.
Arguments outcome {effect answer A S} _.
Arguments trace {effect answer A S} _.
Arguments final {effect answer A S} _.
Arguments mkFanout {effect answer A S} tasks world history first_rejection.
Arguments tasks {effect answer A S} _.
Arguments world {effect answer A S} _.
Arguments history {effect answer A S} _.
Arguments first_rejection {effect answer A S} _.
Arguments bind {effect answer A B} p f.
Arguments try_catch {effect answer A} p h.
Arguments await {effect answer A} s.
Arguments run {effect answer A S} h p s.
Arguments advances {effect answer A} _ _ _.
Arguments is_settled {effect answer A} p.
Arguments completion_of {effect answer A} p.
Arguments ends_in {effect answer A} P p.
Arguments within {effect answer A} n p.
Arguments rejection_of {effect answer A} p.
Arguments first_thrown {effect answer A} ps.
Arguments value_of {effect answer A} p.
Arguments spawn {effect answer A S} ps s.
Arguments resume {effect answer A S} h i c.
Arguments interleave {effect answer A S} h schedule c.
Arguments own_trace {effect answer} i hist.
Arguments Promise_all {effect answer A S} c.
Arguments memoryless {effect answer S} f.
Arguments follow {effect answer A} f p.
Arguments heads_for {effect answer A S} f ps c.
Arguments tracks {effect answer A S} ps c.

(** ** The S3 uploader (lib/mongodb.ts, second part) *)

Module UploadToS3Type.
Record t : Type := mk {
  originalImgLink : option string;
  userId : option string;
  location : string
}.
End UploadToS3Type.

Module UploadReturnType.
Record t : Type := mk {
  location : string;
  uploaded : bool
}.
End UploadReturnType.

Module S3.

(** [Buffer] and the chunks of a response body. *)
Definition Buffer : Type := list Byte.byte.

(** [Buffer.concat(data)] *)
Definition Buffer_concat (data : list Buffer) : Buffer := List.concat data.

(** What a finished response shows to the ['end'] listener: its status and
    the chunks the ['data'] listener pushed, in order. *)
Record IncomingMessage : Type := mkIncomingMessage {
  statusCode : option Z;
  data : list Buffer
}.

(** One [https.request(url, cb)] followed by [request.end()], for a URL
    [https.request] accepts: either the response ends (['end'] on the
    response) or the request fails (['error'] on the request). *)
Inductive RequestOutcome : Type :=
| response_end (response : IncomingMessage)
| request_error (err : JsError).

(** The part of [process.env] the uploader reads. *)
Record ProcessEnv : Type := mkProcessEnv {
  AWS_ACCESS_KEY_ID : option string;
  AWS_SECRET_ACCESS_KEY : option string;
  AWS_REGION : option string;
  S3_ENDPOINT : option string;
  S3_BUCKET_NAME : option string
}.

Record S3Client : Type := mkS3Client {
  accessKeyId : option string;
  secretAccessKey : option string;
  region : string;
  endpoint : string
}.

Record PutObjectCommand : Type := mkPutObjectCommand {
  Bucket : option string;
  Key : string;
  Body : Buffer;
  ContentType : string;
  ACL : string;
  Tagging : string;
  CacheControl : string
}.

Inductive effect : Type :=
| https_request (url : string)
| setTimeout (delay : Z)
| s3_send (s3 : S3Client) (command : PutObjectCommand)
| console (method : console_method) (text : string).

Definition answer (e : effect) : Type :=
  match e with
  | https_request _ => RequestOutcome
  | setTimeout _ => unit
  | s3_send _ _ => settled unit
  | console _ _ => unit
  end.

Abbreviation program := (prog answer).

(** [response.statusCode && response.statusCode >= 200 &&
    response.statusCode < 300] *)
Definition status_ok (status : option Z) : bool :=
  match status with
  | Some c => negb (c =? 0) && (200 <=? c) && (c <? 300)
  | None => false
  end.

(** [https.request] looks at its arguments before it does anything else and
    throws for a URL it refuses (a string that is not a URL, or a URL that
    is not an [https:] one).  What it refuses depends on the URL alone:
    [https_refuses url] is the error it throws for [url], if any.  The
    function is Node's, not the repository's, and is a parameter of
    everything that downloads. *)

(** The closure [attempt] of [processImage]: one request, whose ['end']
    listener resolves, retries after [delay] or rejects, and whose ['error']
    listener retries after [delay] or rejects.  [n] is the number of retries
    left; the warnings print [3 - n + 1] whatever [retries] was.  When
    [https.request] throws, nothing is requested or logged: the first
    attempt runs inside the executor of the promise, which turns the throw
    into a rejection with the same error.  Every later attempt passes the
    same URL, so it is not refused. *)
Equations? attempt (https_refuses : string -> option JsError) (url : string) (delay : Z)
  (n : Z) : program Buffer
  by wf (Z.to_nat n) lt :=
attempt https_refuses url delay n :=
  match https_refuses url with
  | Some thrown => Throw thrown
  | None =>
  Vis (https_request url) (fun o =>
    match o with
    | response_end response =>
        if status_ok (statusCode response) then
          Ret (Buffer_concat (data response))
        else
          match Z_lt_dec 0 n with
          | left _ =>
              Vis (console console_warn
                     ("Retrying image download... (" ++ show_number (3 - n + 1)
                      ++ ") for " ++ url)%string) (fun _ =>
              Vis (setTimeout delay) (fun _ => attempt https_refuses url delay (n - 1)))
          | right _ =>
              Vis (console console_error
                     ("❌ Failed to fetch image after retries: " ++ url)%string) (fun _ =>
              Throw (new_Error ("Image download failed. Status: "
                                ++ show_optional show_number (statusCode response))%string))
          end
    | request_error err =>
        match Z_lt_dec 0 n with
        | left _ =>
            Vis (console console_warn
                   ("⚠️ Retrying due to error: " ++ message err ++ " ("
                    ++ show_number (3 - n + 1) ++ ")")%string) (fun _ =>
            Vis (setTimeout delay) (fun _ => attempt https_refuses url delay (n - 1)))
        | right _ =>
            Vis (console console_error
                   ("❌ Failed to fetch image from " ++ url ++ ": " ++ message err)%string) (fun _ =>
            Throw err)
        end
    end)
  end.
Proof. all: lia. Qed.

(** [processImage(url, retries = 3, delay = 1500)]: an omitted argument
    ([None]) takes its default. *)
Definition processImage (https_refuses : string -> option JsError) (url : string)
  (retries delay : option Z) : program Buffer :=
  attempt https_refuses url (default 1500 delay) (default 3 retries).

(** [configureS3()] *)
Definition configureS3 (env : ProcessEnv) : option S3Client :=
  if truthy_string (AWS_ACCESS_KEY_ID env) && truthy_string (AWS_SECRET_ACCESS_KEY env) then
    Some {| accessKeyId := AWS_ACCESS_KEY_ID env;
            secretAccessKey := AWS_SECRET_ACCESS_KEY env;
            region := or_else (AWS_REGION env) "us-east-2";
            endpoint := or_else (S3_ENDPOINT env) "https://s3.us-east-2.amazonaws.com" |}
  else None.

(** The [try] block of [uploadImageToS3]. *)
Definition upload_try (https_refuses : string -> option JsError) (env : ProcessEnv)
  (arg : UploadToS3Type.t) : program UploadReturnType.t :=
  let originalImgLink := UploadToS3Type.originalImgLink arg in
  let userId := UploadToS3Type.userId arg in
  let location := UploadToS3Type.location arg in
  if negb (truthy_string originalImgLink) then Throw (new_Error "Image link is undefined")
  else
    match configureS3 env with
    | None => Throw (new_Error "Unable to configure S3")
    | Some s3 =>
        bind (processImage https_refuses (default ""%string originalImgLink) None None) (fun body =>
        let command :=
          {| Bucket := S3_BUCKET_NAME env;
             Key := location;
             Body := body;
             ContentType := "image/png";
             ACL := "public-read";
             Tagging := ("userId=" ++ show_optional id userId)%string;
             CacheControl := "public, max-age=2592000" |} in
        Vis (s3_send s3 command) (fun sent =>
        bind (await sent) (fun _ =>
        Vis (console console_log ("Uploaded image successfully -> " ++ location)%string) (fun _ =>
        Ret (UploadReturnType.mk location true)))))
    end.

(** [error.code === "ENOTFOUND" || error.message?.includes("ENOTFOUND")] *)
Definition is_ENOTFOUND (error : JsError) : bool :=
  match code error with
  | Some c => String.eqb c "ENOTFOUND"
  | None => false
  end || includes (message error) "ENOTFOUND".

(** [originalImgLink?.slice(0, 50)] inside a template string.  Strings are
    sequences of bytes here, so the cut is the one JavaScript makes for a
    link written in ASCII. *)
Definition link_prefix (originalImgLink : option string) : string :=
  show_optional (fun s => String.substring 0 50 s) originalImgLink.

(** The [catch] block of [uploadImageToS3]. *)
Definition upload_catch (arg : UploadToS3Type.t) (error : JsError) : program UploadReturnType.t :=
  let location := UploadToS3Type.location arg in
  if is_ENOTFOUND error then
    Vis (console console_warn
           ("⚠️ Skipping image upload due to network issue: " ++ message error)%string) (fun _ =>
    Ret (UploadReturnType.mk location false))
  else
    Vis (console console_error
           (" Error uploading image: " ++ link_prefix (UploadToS3Type.originalImgLink arg)
            ++ "... - " ++ Error_toString error)%string) (fun _ =>
    Ret (UploadReturnType.mk location false)).

(** [uploadImageToS3({ originalImgLink, userId, location })] *)
Definition uploadImageToS3 (https_refuses : string -> option JsError) (env : ProcessEnv)
  (arg : UploadToS3Type.t) : program UploadReturnType.t :=
  try_catch (upload_try https_refuses env arg) (upload_catch arg).

(** [uploadImagesToS3(openaiImagesArray)] while the event loop follows
    [schedule]: the calls [openaiImagesArray.map(uploadImageToS3)] are in
    flight together, and the function awaits [Promise.all] of them.  [None]
    is a promise still pending; [Some None] is the [null] of the [catch]
    block, which logs the reason first. *)
Definition uploadImagesToS3_calls {W} (https_refuses : string -> option JsError)
  (env : ProcessEnv) (h : handler answer W)
  (schedule : list nat) (openaiImagesArray : list UploadToS3Type.t) (s : W)
  : fanout answer UploadReturnType.t W :=
  interleave h schedule (spawn (uploadImageToS3 https_refuses env <$> openaiImagesArray) s).

Definition uploadImagesToS3 {W} (https_refuses : string -> option JsError)
  (env : ProcessEnv) (h : handler answer W)
  (schedule : list nat) (openaiImagesArray : list UploadToS3Type.t) (s : W)
  : option (option (list UploadReturnType.t)) :=
  match Promise_all (uploadImagesToS3_calls https_refuses env h schedule openaiImagesArray s) with
  | None => None
  | Some (Fulfilled results) => Some (Some results)
  | Some (Rejected error) => Some None
  end.

(** No call of [uploadImageToS3] performs more effects than this: four
    requests, three warnings and three timers, the final error or the S3
    command with its log line, and the log line of the [catch] block, with
    room to spare. *)
Definition upload_effects : nat := 14.

(** *** What a trace of the uploader shows *)

(** The requests of a trace, in order: the URL and how the request ended. *)
Definition requests (tr : list (entry answer)) : list (string * RequestOutcome) :=
  omap (fun en =>
          match en with
          | Entry e x =>
              match e return answer e -> option (string * RequestOutcome) with
              | https_request url => fun o => Some (url, o)
              | _ => fun _ => None
              end x
          end) tr.

(** The S3 commands of a trace, in order, and how each settled. *)
Definition sends (tr : list (entry answer)) : list (PutObjectCommand * settled unit) :=
  omap (fun en =>
          match en with
          | Entry e x =>
              match e return answer e -> option (PutObjectCommand * settled unit) with
              | s3_send _ command => fun r => Some (command, r)
              | _ => fun _ => None
              end x
          end) tr.

(** The requests and timers of a trace, in order (the console left out). *)
Definition wire (tr : list (entry answer)) : list effect :=
  omap (fun en =>
          match en with
          | Entry (console _ _) _ => None
          | Entry e _ => Some e
          end) tr.

(** The attempt completed with a 2xx status. *)
Definition succeeded (o : RequestOutcome) : bool :=
  match o with
  | response_end response => status_ok (statusCode response)
  | request_error _ => false
  end.

(** The bytes a successful attempt resolves with. *)
Definition downloaded (o : RequestOutcome) : Buffer :=
  match o with
  | response_end response => Buffer_concat (data response)
  | request_error _ => []
  end.

(** The reason [processImage] rejects with when its last attempt ends as [o]. *)
Definition failure_of (o : RequestOutcome) : JsError :=
  match o with
  | response_end response =>
      new_Error ("Image download failed. Status: "
                 ++ show_optional show_number (statusCode response))%string
  | request_error err => err
  end.

(** [m] requests to [url] with a timer of [delay] between consecutive ones. *)
Definition spaced (url : string) (delay : Z) (m : nat) : list effect :=
  match m with
  | O => []
  | S m' => https_request url :: mjoin (replicate m' [setTimeout delay; https_request url])
  end.

(** What one run of [attempt] with [n] retries left looks like. *)
Definition attempt_shape {W} (url : string) (delay : Z) (n : Z) (r : execution answer Buffer W)
  : Prop :=
  let attempts := requests (trace r) in
  (1 <= length attempts <= Z.to_nat n + 1)%nat /\
  wire (trace r) = spaced url delay (length attempts) /\
  sends (trace r) = [] /\
  exists earlier o,
    attempts = earlier ++ [(url, o)] /\
    Forall (fun uo => succeeded uo.2 = false) earlier /\
    match outcome r with
    | Returned body => succeeded o = true /\ body = downloaded o
    | Thrown e =>
        length attempts = (Z.to_nat n + 1)%nat /\ succeeded o = false /\ e = failure_of o
    end.

(** The S3 command was accepted. *)
Definition put_succeeded (r : PutObjectCommand * settled unit) : bool :=
  match r.2 with
  | Fulfilled _ => true
  | Rejected _ => false
  end.

(** The HTTPS requests and timers of a trace, in order. *)
Definition network (tr : list (entry answer)) : list effect :=
  omap (fun en =>
          match en with
          | Entry (https_request url) _ => Some (https_request url)
          | Entry (setTimeout delay) _ => Some (setTimeout delay)
          | _ => None
          end) tr.

(** How many lines a trace wrote with the given console method. *)
Definition logged (method : console_method) (tr : list (entry answer)) : nat :=
  length (List.filter (fun en =>
                         match en with
                         | Entry (console m _) _ =>
                             match method, m with
                             | console_log, console_log => true
                             | console_warn, console_warn => true
                             | console_error, console_error => true
                             | _, _ => false
                             end
                         | _ => false
                         end) tr).

End S3.

(** ** The database connector (lib/mongodb.ts, first part) *)

Module Mongo.

Record Connection : Type := mkConnection {
  readyState : Z
}.

(** What [mongoose.connect] resolves to: the code reads [connections] of it. *)
Record Mongoose : Type := mkMongoose {
  connections : list Connection
}.

Record ConnectOptions : Type := mkConnectOptions {
  serverSelectionTimeoutMS : Z;
  ssl : bool;
  tlsAllowInvalidCertificates : bool
}.

(** The module-level variable [isConnected] is read and written through
    effects, so that calls in flight together share it. *)
Inductive effect : Type :=
| read_isConnected
| write_isConnected (value : bool)
| mongoose_connect (uri : string) (options : ConnectOptions)
| console (method : console_method) (text : string) (error : option JsError).

Definition answer (e : effect) : Type :=
  match e with
  | read_isConnected => bool
  | write_isConnected _ => unit
  | mongoose_connect _ _ => settled Mongoose
  | console _ _ _ => unit
  end.

Abbreviation program := (prog answer).

(** Reading [.readyState] of [undefined]. *)
Definition TypeError_readyState : JsError :=
  {| name := "TypeError"; code := None;
     message := "Cannot read properties of undefined (reading 'readyState')" |}.

(** [connectDB()], in a module loaded with a non-empty [MONGO_URI]. *)
Definition connectDB (uri : string) : program unit :=
  Vis read_isConnected (fun isConnected : bool =>
  if isConnected then Ret tt
  else
    try_catch
      (Vis (mongoose_connect uri
              {| serverSelectionTimeoutMS := 20000; ssl := true;
                 tlsAllowInvalidCertificates := false |}) (fun connecting =>
       bind (await connecting) (fun conn =>
       match connections conn with
       | [] => Throw TypeError_readyState
       | first :: _ =>
           Vis (write_isConnected (negb (readyState first =? 0))) (fun _ =>
           Vis (console console_log "✅ MongoDB Connected" None) (fun _ =>
           Ret tt))
       end)))
      (fun error =>
       Vis (console console_error "❌ MongoDB connection error:" (Some error)) (fun _ =>
       Throw (new_Error "MongoDB connection failed")))).

(** The process: the module variable and the world outside. *)
Record process (S : Type) : Type := mkProcess {
  isConnected : bool;
  outside : S
}.
Arguments mkProcess {S} isConnected outside.
Arguments isConnected {S} _.
Arguments outside {S} _.

(** The variable behaves as a variable; [mongoose.connect] is answered by
    the world outside, in any way. *)
Definition in_process {S} (connect : string -> ConnectOptions -> S -> settled Mongoose * S)
  : handler answer (process S) :=
  fun e =>
    match e return process S -> answer e * process S with
    | read_isConnected => fun p => (isConnected p, p)
    | write_isConnected value => fun p => (tt, mkProcess value (outside p))
    | mongoose_connect uri options => fun p =>
        let '(r, s) := connect uri options (outside p) in
        (r, mkProcess (isConnected p) s)
    | console _ _ _ => fun p => (tt, p)
    end.

(** [n] calls of [connectDB], each awaited before the next one starts; the
    traces of the calls, in order, and the process afterwards. *)
Fixpoint connectDB_times {W} (h : handler answer (process W)) (uri : string) (n : nat)
  (p : process W) : list (execution answer unit (process W)) :=
  match n with
  | O => []
  | S n' =>
      let r := run h (connectDB uri) p in
      r :: connectDB_times h uri n' (final r)
  end.

(** A connection attempt that succeeded: [mongoose.connect] was called and
    its promise fulfilled. *)
Definition connected_entry (en : entry answer) : bool :=
  match en with
  | Entry e x =>
      match e return answer e -> bool with
      | mongoose_connect _ _ => fun r =>
          match r with
          | Fulfilled _ => true
          | Rejected _ => false
          end
      | _ => fun _ => false
      end x
  end.

(** A call of [mongoose.connect], however it ended. *)
Definition connect_entry (en : entry answer) : bool :=
  match en with
  | Entry (mongoose_connect _ _) _ => true
  | _ => false
  end.

(** The top of the module: [const uri = process.env.MONGO_URI || ""] and
    the [throw] that stops the module from loading without one. *)
Definition module_uri (MONGO_URI : option string) : completion string :=
  let uri := or_else MONGO_URI "" in
  if String.eqb uri "" then Thrown (new_Error "Please add your Mongo URI to .env.local")
  else Returned uri.

(** The calls of [mongoose.connect] in a trace: arguments and settlement. *)
Definition connects (tr : list (entry answer)) : list (string * ConnectOptions * settled Mongoose) :=
  omap (fun en =>
          match en with
          | Entry e x =>
              match e return answer e -> option (string * ConnectOptions * settled Mongoose) with
              | mongoose_connect uri options => fun r => Some (uri, options, r)
              | _ => fun _ => None
              end x
          end) tr.

(** The connection attempt gave a connection whose [readyState] is truthy. *)
Definition ready (r : settled Mongoose) : bool :=
  match r with
  | Fulfilled conn =>
      match connections conn with
      | first :: _ => negb (readyState first =? 0)
      | [] => false
      end
  | Rejected _ => false
  end.

(** The connection attempt gave at least one connection. *)
Definition gave_connection (r : settled Mongoose) : bool :=
  match r with
  | Fulfilled conn =>
      match connections conn with
      | _ :: _ => true
      | [] => false
      end
  | Rejected _ => false
  end.

End Mongo.

(** ** The API route guard (lib/apiMiddleware.ts) *)

Module Middleware.

(** The JSON bodies the guard sends and the values a handler returns. *)
Inductive JsValue : Type :=
| undefined
| str (s : string)
| obj (fields : list (string * string)).

(** The request, as far as the guard reads it. *)
Record NextApiRequest : Type := mkRequest {
  method : option string;
  url : option string
}.

Record Session : Type := mkSession {
  user_id : option string;
  expires : string
}.

(** What a call [handler(req, res, session)] hands back: it throws, or it
    returns a value, which for an [async] handler is a promise. *)
Inductive returned : Type :=
| plain (v : JsValue)
| promise (s : settled JsValue).

Inductive call_outcome : Type :=
| call_returns (v : returned)
| call_throws (e : JsError).

Section Wrapping.

(** JavaScript functions, as opaque references. *)
Variable Function : Type.

Inductive effect : Type :=
| getServerSession (req : NextApiRequest)
| call (handler : Function) (req : NextApiRequest) (session : Session)
| res_status (status : Z)
| res_json (body : JsValue)
| console_error (text : string) (error : JsError).

Definition answer (e : effect) : Type :=
  match e with
  | getServerSession _ => settled (option Session)
  | call _ _ _ => call_outcome
  | res_status _ => unit
  | res_json _ => unit
  | console_error _ _ => unit
  end.

(** [methods.includes(req.method!)] *)
Definition methods_include (methods : list string) (m : option string) : bool :=
  match m with
  | Some m => existsb (String.eqb m) methods
  | None => false
  end.

(** [res.status(code).json(body)] *)
Definition respond (status : Z) (body : JsValue) : prog answer JsValue :=
  Vis (res_status status) (fun _ =>
  Vis (res_json body) (fun _ =>
  Ret undefined)).

(** The [try] block of the wrapped function; its value is what a [return]
    statement hands to the promise of the [async] function. *)
Definition guarded (methods : list string) (handler : Function) (req : NextApiRequest)
  : prog answer returned :=
  if negb (methods_include methods (method req)) then
    bind (respond 405 (obj [("error", "Method not allowed")%string])) (fun v => Ret (plain v))
  else
    Vis (getServerSession req) (fun retrieving =>
    bind (await retrieving) (fun session =>
    match session with
    | None =>
        bind (respond 401 (obj [("error", "Unauthorized – please sign in")%string]))
             (fun v => Ret (plain v))
    | Some session =>
        Vis (call handler req session) (fun c =>
        match c with
        | call_returns v => Ret v
        | call_throws e => Throw e
        end)
    end)).

(** The [catch] block. *)
Definition on_error (error : JsError) : prog answer returned :=
  Vis (console_error "Middleware error:" error) (fun _ =>
  bind (respond 500 (obj [("error", "Internal server error in middleware")%string])) (fun _ =>
  Ret (plain undefined))).

(** Resolving the promise of an [async] function with a returned value: a
    returned promise is adopted, outside every [try] of the function. *)
Definition resolve_with (v : returned) : prog answer JsValue :=
  match v with
  | plain v => Ret v
  | promise s => await s
  end.

(** [apiMiddleware(methods, handler)], applied to a request. *)
Definition apiMiddleware (methods : list string) (handler : Function) (req : NextApiRequest)
  : prog answer JsValue :=
  bind (try_catch (guarded methods handler req) on_error) resolve_with.

(** The effects of a trace, without their answers. *)
Definition effects_of (tr : list (entry answer)) : list effect :=
  (fun en => match en with Entry e _ => e end) <$> tr.

(** The calls of the wrapped handler in a trace, with their arguments. *)
Definition handler_calls (tr : list (entry answer)) : list (Function * NextApiRequest * Session) :=
  omap (fun en =>
          match en with
          | Entry (call f req session) _ => Some (f, req, session)
          | _ => None
          end) tr.

(** The response as the guard's own [res.status] and [res.json] calls leave
    it: the last status set and the last body sent. *)
Record Response : Type := mkResponse {
  statusCode : Z;
  sent : option JsValue
}.

Definition write_response (r : Response) (e : effect) : Response :=
  match e with
  | res_status status => mkResponse status (sent r)
  | res_json body => mkResponse (statusCode r) (Some body)
  | _ => r
  end.

Definition response_of (tr : list (entry answer)) : Response :=
  fold_left write_response (effects_of tr) (mkResponse 200 None).

(** An exception was thrown inside the [try] block: the awaited session
    promise rejected, or the handler threw. *)
Definition threw (tr : list (entry answer)) : bool :=
  existsb (fun en =>
             match en with
             | Entry e x =>
                 match e return answer e -> bool with
                 | getServerSession _ => fun s =>
                     match s with Rejected _ => true | Fulfilled _ => false end
                 | call _ _ _ => fun c =>
                     match c with call_throws _ => true | call_returns _ => false end
                 | _ => fun _ => false
                 end x
             end) tr.

(** The session promise fulfilled with [null]. *)
Definition no_session (tr : list (entry answer)) : bool :=
  existsb (fun en =>
             match en with
             | Entry e x =>
                 match e return answer e -> bool with
                 | getServerSession _ => fun s =>
                     match s with Fulfilled None => true | _ => false end
                 | _ => fun _ => false
                 end x
             end) tr.

(** The reason of the promise the handler returned, when it returned one
    that rejects. *)
Definition handler_rejection (tr : list (entry answer)) : option JsError :=
  head (omap (fun en =>
                match en with
                | Entry e x =>
                    match e return answer e -> option JsError with
                    | call _ _ _ => fun c =>
                        match c with
                        | call_returns (promise (Rejected e)) => Some e
                        | _ => None
                        end
                    | _ => fun _ => None
                    end x
                end) tr).

(** The value the handler handed back: what it returned, or what the
    promise it returned was fulfilled with. *)
Definition handler_value (tr : list (entry answer)) : option JsValue :=
  head (omap (fun en =>
                match en with
                | Entry e x =>
                    match e return answer e -> option JsValue with
                    | call _ _ _ => fun c =>
                        match c with
                        | call_returns (plain v) => Some v
                        | call_returns (promise (Fulfilled v)) => Some v
                        | _ => None
                        end
                    | _ => fun _ => None
                    end x
                end) tr).

(** How many bodies the guard sent with [res.json]. *)
Definition guard_sends (tr : list (entry answer)) : nat :=
  length (List.filter (fun e => match e with res_json _ => true | _ => false end) (effects_of tr)).

(** How many times the guard asked for the session. *)
Definition session_lookups (tr : list (entry answer)) : nat :=
  length (List.filter (fun e => match e with getServerSession _ => true | _ => false end)
            (effects_of tr)).

End Wrapping.

Arguments getServerSession {Function} req.
Arguments call {Function} handler req session.
Arguments res_status {Function} status.
Arguments res_json {Function} body.
Arguments console_error {Function} text error.
Arguments respond {Function} status body.
Arguments guarded {Function} methods handler req.
Arguments on_error {Function} error.
Arguments resolve_with {Function} v.
Arguments apiMiddleware {Function} methods handler req.
Arguments effects_of {Function} tr.
Arguments handler_calls {Function} tr.
Arguments response_of {Function} tr.
Arguments threw {Function} tr.
Arguments handler_rejection {Function} tr.
Arguments handler_value {Function} tr.
Arguments guard_sends {Function} tr.
Arguments session_lookups {Function} tr.
Arguments no_session {Function} tr.

End Middleware.

(** ** The audio uploader (lib/mongodb.ts, second part, [uploadAudioToS3]) *)

Module Audio.

(** The command [uploadAudioToS3] builds; it has no [Tagging]. *)
Record PutObjectCommand : Type := mkPutObjectCommand {
  Bucket : option string;
  Key : string;
  Body : S3.Buffer;
  ContentType : string;
  CacheControl : string;
  ACL : string
}.

Inductive effect : Type :=
| s3_send (s3 : S3.S3Client) (command : PutObjectCommand)
| console (method : console_method) (text : string).

Definition answer (e : effect) : Type :=
  match e with
  | s3_send _ _ => settled unit
  | console _ _ => unit
  end.

(** The URL the function reports: built from [process.env], not from the
    client. *)
Definition s3Url (env : S3.ProcessEnv) (fileName : string) : string :=
  ("https://" ++ show_optional id (S3.S3_BUCKET_NAME env) ++ ".s3."
   ++ show_optional id (S3.AWS_REGION env) ++ ".amazonaws.com/audio/" ++ fileName)%string.

(** [uploadAudioToS3({ audioBuffer, fileName })] *)
Definition uploadAudioToS3 (env : S3.ProcessEnv) (audioBuffer : S3.Buffer) (fileName : string)
  : prog answer string :=
  try_catch
    (match S3.configureS3 env with
     | None => Throw (new_Error "Unable to configure S3")
     | Some s3 =>
         let command :=
           {| Bucket := S3.S3_BUCKET_NAME env;
              Key := ("audio/" ++ fileName)%string;
              Body := audioBuffer;
              ContentType := "audio/mpeg";
              CacheControl := "public, max-age=2592000";
              ACL := "public-read" |} in
         Vis (s3_send s3 command) (fun sent =>
         bind (await sent) (fun _ =>
         Vis (console console_log ("🎵 Uploaded audio to S3 -> " ++ s3Url env fileName)%string)
             (fun _ =>
         Ret (s3Url env fileName))))
     end)
    (fun error =>
     Vis (console console_error
            ("Error uploading audio to S3. File: " ++ fileName ++ " - "
             ++ Error_toString error)%string) (fun _ =>
     Throw (new_Error ("Failed to upload audio to S3: " ++ Error_toString error)%string))).

(** The S3 commands of a trace, in order, with the client that sent them
    and how each settled. *)
Definition sends (tr : list (entry answer)) : list (S3.S3Client * PutObjectCommand * settled unit) :=
  omap (fun en =>
          match en with
          | Entry e x =>
              match e return answer e -> option (S3.S3Client * PutObjectCommand * settled unit) with
              | s3_send s3 command => fun r => Some (s3, command, r)
              | _ => fun _ => None
              end x
          end) tr.

End Audio.

(** ** The sign-in callbacks (pages/api/auth/[...nextauth].ts) *)

Module Auth.

Module User.
Record t : Type := mk {
  id : string;
  name : option string;
  email : option string;
  image : option string
}.
End User.

(** The JWT payload, as far as the callbacks touch it. *)
Module JWT.
Record t : Type := mk {
  sub : option string;
  name : option string;
  email : option string;
  picture : option string
}.
End JWT.

Module SessionUser.
Record t : Type := mk {
  id : option string;
  name : option string;
  email : option string;
  image : option string
}.
End SessionUser.

Module Session.
Record t : Type := mk {
  user : option SessionUser.t;
  expires : string
}.
End Session.

(** Assigning [.id] on [session.user] when it is [undefined]. *)
Definition TypeError_set_id : JsError :=
  {| name := "TypeError"; code := None;
     message := "Cannot set properties of undefined (setting 'id')" |}.

(** [callbacks.jwt({ token, user })]: [user] is only there on sign-in. *)
Definition jwt (token : JWT.t) (user : option User.t) : JWT.t :=
  match user with
  | Some user => JWT.mk (Some (User.id user)) (JWT.name token) (JWT.email token) (JWT.picture token)
  | None => token
  end.

(** [callbacks.session({ session, token })] *)
Definition session (session : Session.t) (token : option JWT.t) : completion Session.t :=
  if truthy_string (token ≫= JWT.sub) then
    match Session.user session with
    | Some user =>
        Returned (Session.mk
                    (Some (SessionUser.mk (token ≫= JWT.sub) (SessionUser.name user)
                                          (SessionUser.email user) (SessionUser.image user)))
                    (Session.expires session))
    | None => Thrown TypeError_set_id
    end
  else Returned session.

(** The token after a sign-in and [n] later requests. *)
Fixpoint refreshed (n : nat) (token : JWT.t) : JWT.t :=
  match n with
  | O => token
  | S n' => refreshed n' (jwt token None)
  end.

End Auth.

(** ** Concrete environments *)

Module Scenario.

Import S3.

(** A world in which the [i]-th request ends as [network i] and every S3
    command settles as [storage]; its state counts the requests made. *)
Definition scripted (network : nat -> RequestOutcome) (storage : settled unit)
  : handler answer nat :=
  fun e =>
    match e return nat -> answer e * nat with
    | https_request _ => fun i => (network i, S i)
    | setTimeout _ => fun i => (tt, i)
    | s3_send _ _ => fun i => (storage, i)
    | console _ _ => fun i => (tt, i)
    end.

Definition ERR_INVALID_URL : JsError :=
  {| name := "TypeError"; code := Some "ERR_INVALID_URL"%string; message := "Invalid URL" |}.

(** A Node that accepts the strings that start with ["https://"]. *)
Definition https_only (url : string) : option JsError :=
  if String.prefix "https://" url then None else Some ERR_INVALID_URL.

Definition png : IncomingMessage :=
  {| statusCode := Some 200; data := [[Byte.x89; Byte.x50]; [Byte.x4e; Byte.x47]] |}.

Definition unavailable : IncomingMessage :=
  {| statusCode := Some 503; data := [] |}.

(** Two 503 responses, then the image. *)
Definition third_time_lucky (i : nat) : RequestOutcome :=
  if (i <? 2)%nat then response_end unavailable else response_end png.

Definition getaddrinfo_ENOTFOUND : JsError :=
  {| name := "Error"; code := Some "ENOTFOUND"%string;
     message := "getaddrinfo ENOTFOUND images.example.com" |}.

Definition AccessDenied : JsError :=
  {| name := "AccessDenied"; code := None; message := "Access Denied" |}.

Definition env : ProcessEnv :=
  {| AWS_ACCESS_KEY_ID := Some "AKIAEXAMPLE"%string;
     AWS_SECRET_ACCESS_KEY := Some "secret"%string;
     AWS_REGION := None;
     S3_ENDPOINT := None;
     S3_BUCKET_NAME := Some "smart-recipe-generator"%string |}.

Definition image (n : string) : UploadToS3Type.t :=
  UploadToS3Type.mk (Some ("https://images.example.com/" ++ n)%string)
                    (Some "user-1"%string) ("recipes/" ++ n)%string.

(** A database that accepts every connection. *)
Definition always_up (uri : string) (options : Mongo.ConnectOptions) (s : unit)
  : settled Mongo.Mongoose * unit :=
  (Fulfilled {| Mongo.connections := [ {| Mongo.readyState := 1 |} ] |}, s).

Definition uri : string := "mongodb+srv://cluster.example.com/recipes".

(** Route handlers are referred to by name. *)
Definition route (session : settled (option Middleware.Session)) (reply : Middleware.call_outcome)
  : handler (Middleware.answer string) unit :=
  fun e =>
    match e return unit -> Middleware.answer string e * unit with
    | Middleware.getServerSession _ => fun s => (session, s)
    | Middleware.call _ _ _ => fun s => (reply, s)
    | Middleware.res_status _ => fun s => (tt, s)
    | Middleware.res_json _ => fun s => (tt, s)
    | Middleware.console_error _ _ => fun s => (tt, s)
    end.

Definition signed_in : Middleware.Session :=
  {| Middleware.user_id := Some "user-1"%string; Middleware.expires := "2026-12-01" |}.

Definition post : Middleware.NextApiRequest :=
  {| Middleware.method := Some "POST"%string; Middleware.url := Some "/api/save-recipes"%string |}.

(** An S3 that settles every audio command as [storage]. *)
Definition bucket (storage : settled unit) : handler Audio.answer unit :=
  fun e =>
    match e return unit -> Audio.answer e * unit with
    | Audio.s3_send _ _ => fun s => (storage, s)
    | Audio.console _ _ => fun s => (tt, s)
    end.


Definition no_keys : S3.ProcessEnv :=
  {| S3.AWS_ACCESS_KEY_ID := None;
     S3.AWS_SECRET_ACCESS_KEY := Some "secret"%string;
     S3.AWS_REGION := None;
     S3.S3_ENDPOINT := None;
     S3.S3_BUCKET_NAME := Some "smart-recipe-generator"%string |}.

(** A database that refuses every connection. *)
Definition always_down (uri : string) (options : Mongo.ConnectOptions) (s : unit)
  : settled Mongo.Mongoose * unit :=
  (Rejected {| name := "MongooseServerSelectionError"; code := None;
               message := "connect ECONNREFUSED" |}, s).

(** A world that answers every request with the image and accepts every
    S3 command. *)
Definition all_fine (e : S3.effect) : S3.answer e :=
  match e with
  | S3.https_request _ => S3.response_end png
  | S3.setTimeout _ => tt
  | S3.s3_send _ _ => Fulfilled tt
  | S3.console _ _ => tt
  end.

Definition ada : Auth.User.t :=
  Auth.User.mk "user-1" (Some "Ada"%string) (Some "ada@example.com"%string) None.

Definition fresh_token : Auth.JWT.t :=
  Auth.JWT.mk None (Some "Ada"%string) (Some "ada@example.com"%string) None.

Definition fresh_session : Auth.Session.t :=
  Auth.Session.mk
    (Some (Auth.SessionUser.mk None (Some "Ada"%string) (Some "ada@example.com"%string) None))
    "2026-12-01".

End Scenario.

(** * Properties *)

(** ** Programs and their runs *)

Section ProgramFacts.

Context {effect : Type} {answer : effect -> Type}.

Lemma run_bind {A B S} (h : handler answer S) (p : prog answer A) (f : A -> prog answer B) s :
  run h (bind p f) s =
  match outcome (run h p s) with
  | Returned a =>
      let r := run h (f a) (final (run h p s)) in
      mkExecution (outcome r) (trace (run h p s) ++ trace r) (final r)
  | Thrown e => mkExecution (Thrown e) (trace (run h p s)) (final (run h p s))
  end.
Proof.
  revert s; induction p as [a|e|e k IH]; intros s; simpl.
  - by destruct (run h (f a) s).
  - done.
  - destruct (h e s) as [x s1]; simpl. rewrite IH.
    by destruct (outcome (run h (k x) s1)).
Qed.

Lemma run_try_catch {A S} (h : handler answer S) (p : prog answer A) (c : JsError -> prog answer A) s :
  run h (try_catch p c) s =
  match outcome (run h p s) with
  | Returned a => run h p s
  | Thrown e =>
      let r := run h (c e) (final (run h p s)) in
      mkExecution (outcome r) (trace (run h p s) ++ trace r) (final r)
  end.
Proof.
  revert s; induction p as [a|e|e k IH]; intros s; simpl.
  - done.
  - by destruct (run h (c e) s).
  - destruct (h e s) as [x s1]; simpl. rewrite IH.
    destruct (outcome (run h (k x) s1)) eqn:Ho; simpl; [by rewrite Ho | done].
Qed.

(** A run follows one path of the tree, to its end. *)
Lemma run_advances {A S} (h : handler answer S) (p : prog answer A) s :
  exists q, advances p (trace (run h p s)) q /\
            completion_of q = Some (outcome (run h p s)).
Proof.
  revert s; induction p as [a|e|e k IH]; intros s; simpl.
  - exists (Ret a); split; [constructor | done].
  - exists (Throw e); split; [constructor | done].
  - destruct (h e s) as [x s1]; simpl.
    destruct (IH x s1) as (q & Hq & Hc).
    exists q; split; [by constructor | done].
Qed.

Lemma advances_snoc {A} (p : prog answer A) tr e k x :
  advances p tr (Vis e k) -> advances p (tr ++ [Entry e x]) (k x).
Proof.
  intros H; remember (Vis e k) as q eqn:Hq; induction H; subst; simpl.
  - constructor; constructor.
  - constructor; auto.
Qed.

Lemma ends_in_advances {A} (P : completion A -> Prop) (p q : prog answer A) tr :
  ends_in P p -> advances p tr q -> ends_in P q.
Proof. intros HP H; induction H; simpl in *; auto. Qed.

Lemma ends_in_run {A S} (P : completion A -> Prop) (h : handler answer S) (p : prog answer A) s :
  ends_in P p -> P (outcome (run h p s)).
Proof.
  revert s; induction p as [a|e|e k IH]; intros s HP; simpl in *; auto.
  destruct (h e s) as [x s1]; simpl; auto.
Qed.

Lemma ends_in_weaken {A} (P Q : completion A -> Prop) (p : prog answer A) :
  (forall c, P c -> Q c) -> ends_in P p -> ends_in Q p.
Proof. intros HPQ; induction p; simpl; auto. Qed.

Lemma ends_in_bind {A B} (P : completion B -> Prop) (p : prog answer A) (f : A -> prog answer B) :
  ends_in (fun c => match c with
                    | Returned a => ends_in P (f a)
                    | Thrown e => P (Thrown e)
                    end) p ->
  ends_in P (bind p f).
Proof. induction p; simpl; auto. Qed.

Lemma ends_in_try_catch {A} (P : completion A -> Prop) (p : prog answer A) (c : JsError -> prog answer A) :
  ends_in (fun r => match r with
                    | Returned a => P (Returned a)
                    | Thrown e => ends_in P (c e)
                    end) p ->
  ends_in P (try_catch p c).
Proof. induction p; simpl; auto. Qed.

Lemma within_mono {A} (n m : nat) (p : prog answer A) :
  (n <= m)%nat -> within n p -> within m p.
Proof.
  revert m p; induction n as [|n IH]; intros m [a|e|e k] Hle H; simpl in *; try done.
  destruct m as [|m]; [lia|].
  intros x. apply (IH m); [lia | auto].
Qed.

Lemma within_bind {A B} (n m : nat) (p : prog answer A) (f : A -> prog answer B) :
  within n p -> (forall a, within m (f a)) -> within (n + m) (bind p f).
Proof.
  revert p; induction n as [|n IH]; intros [a|e|e k] Hp Hf; simpl in *; try done.
  - apply (within_mono m); [lia | apply Hf].
  - intros x. apply IH; auto.
Qed.

Lemma within_try_catch {A} (n m : nat) (p : prog answer A) (c : JsError -> prog answer A) :
  within n p -> (forall e, within m (c e)) -> within (n + m) (try_catch p c).
Proof.
  revert p; induction n as [|n IH]; intros [a|e|e k] Hp Hc; simpl in *; try done.
  - apply (within_mono m); [lia | apply Hc].
  - intros x. apply IH; auto.
Qed.

Lemma ends_in_always {A} (P : completion A -> Prop) (p : prog answer A) :
  (forall c, P c) -> ends_in P p.
Proof. intros HP; induction p; simpl; auto. Qed.

End ProgramFacts.

(** ** The retrying download *)

Section Download.

Import S3.

Variable refuses : string -> option JsError.

Context {W : Type} (h : handler answer W).

Lemma run_Vis {A} (e : effect) (k : answer e -> program A) s :
  run h (Vis e k) s =
  let r := run h (k (h e s).1) (h e s).2 in
  mkExecution (outcome r) (Entry e (h e s).1 :: trace r) (final r).
Proof. simpl. by destruct (h e s). Qed.

Lemma spaced_again url delay m :
  (1 <= m)%nat ->
  https_request url :: setTimeout delay :: spaced url delay m = spaced url delay (S m).
Proof. destruct m as [|m]; [lia|]. done. Qed.

Lemma attempt_shape_retry url delay n o w1 u1 t1 (r : execution answer Buffer W) :
  0 < n ->
  succeeded o = false ->
  attempt_shape url delay (n - 1) r ->
  attempt_shape url delay n
    (mkExecution (outcome r)
       (Entry (https_request url) o
          :: Entry (console console_warn w1) u1
          :: Entry (setTimeout delay) t1 :: trace r)
       (final r)).
Proof.
  intros Hn Ho (Hlen & Hwire & Hsends & earlier & o' & Hreq & Hearlier & Hout).
  unfold attempt_shape; simpl.
  fold (requests (trace r)). fold (wire (trace r)). fold (sends (trace r)).
  replace (Z.to_nat n) with (S (Z.to_nat (n - 1))) by lia.
  split; [lia|]. split; [|split; [done|]].
  - rewrite Hwire. apply spaced_again. lia.
  - exists ((url, o) :: earlier), o'. rewrite Hreq. split; [done|].
    split; [by constructor|].
    destruct (outcome r); [done|].
    destruct Hout as (Hl & ? & ?). rewrite Hreq in Hl. simpl. rewrite Hl. done.
Qed.

(** A URL [https.request] refuses: the throw, and nothing else. *)
Lemma attempt_refused url delay n thrown (s : W) :
  refuses url = Some thrown ->
  run h (attempt refuses url delay n) s = mkExecution (Thrown thrown) [] s.
Proof. intros Hrefused. by rewrite attempt_equation_1, Hrefused. Qed.

Lemma status_ok_range (status : option Z) :
  status_ok status = true <-> exists c, status = Some c /\ 200 <= c < 300.
Proof.
  unfold status_ok. destruct status as [c|]; [|split; [done | by intros (c & ? & _)]].
  rewrite !andb_true_iff, negb_true_iff, Z.eqb_neq, Z.leb_le, Z.ltb_lt. split.
  - intros [[_ Hlow] Hhigh]. exists c. split; [done | lia].
  - intros (c' & [= <-] & Hrange). repeat split; lia.
Qed.

Lemma attempt_run url delay (k : nat) :
  refuses url = None ->
  forall n s, Z.to_nat n = k -> attempt_shape url delay n (run h (attempt refuses url delay n) s).
Proof.
  intros Haccepted.
  induction k as [|k IH]; intros n s Hk; rewrite attempt_equation_1, Haccepted, run_Vis;
    destruct (h (https_request url) s) as [o s1]; cbn [fst snd];
    destruct o as [response|err].
  all: try destruct (status_ok (statusCode response)) eqn:Hok.
  all: destruct (Z_lt_dec 0 n) as [Hn|Hn]; try lia.
  all: rewrite ?run_Vis; cbn [fst snd outcome trace final].
  all: try (apply attempt_shape_retry; [lia | by simpl; rewrite ?Hok | apply IH; lia]).
  all: unfold attempt_shape; simpl; rewrite ?Hk.
  all: (split; [lia|]); (split; [done|]); (split; [done|]).
  all: eexists [], _; (split; [done|]); (split; [constructor|]); simpl; rewrite ?Hok; done.
Qed.

End Download.

Section DownloadClaims.

Import S3.

Variable refuses : string -> option JsError.


(** A URL [https.request] refuses is not requested at all: [processImage]
    rejects at once with the error thrown, without a retry or a line on the
    console. *)
Lemma processImage_refused {W : Type} (h : handler answer W) (s : W)
  (url : string) (retries delay : option Z) (thrown : JsError) :
  refuses url = Some thrown ->
  run h (processImage refuses url retries delay) s = mkExecution (Thrown thrown) [] s.
Proof. intros Hrefused. unfold processImage. by apply attempt_refused. Qed.

(** A negative retry count, which no caller passes, still makes one request. *)
Lemma processImage_negative_retries {W : Type} (h : handler answer W) (s : W)
  (url : string) (retries : Z) (delay : option Z) :
  refuses url = None ->
  retries < 0 ->
  length (requests (trace (run h (processImage refuses url (Some retries) delay) s))) = 1%nat.
Proof.
  intros Haccepted Hneg. unfold processImage.
  destruct (attempt_run refuses h url (default 1500 delay) _ Haccepted
              (default 3 (Some retries)) s eq_refl)
    as (Hlen & _). simpl in *. lia.
Qed.

End DownloadClaims.


(** The same run, evaluated: two 503 responses, then the four bytes. *)
Example processImage_third_time_lucky :
  let r := run (Scenario.scripted Scenario.third_time_lucky (Fulfilled tt))
               (S3.processImage Scenario.https_only "https://images.example.com/a.png" None None)
               0%nat in
  outcome r = Returned [Byte.x89; Byte.x50; Byte.x4e; Byte.x47] /\
  length (S3.requests (trace r)) = 3%nat /\
  S3.wire (trace r) = S3.spaced "https://images.example.com/a.png" 1500 3.
Proof. vm_compute. repeat split. Qed.

(** A string that is not a URL: no request, no retry, no console line. *)
Example processImage_not_a_url :
  run (Scenario.scripted Scenario.third_time_lucky (Fulfilled tt))
      (S3.processImage Scenario.https_only "not a url" None None) 0%nat
  = mkExecution (Thrown Scenario.ERR_INVALID_URL) [] 0%nat.
Proof. vm_compute. reflexivity. Qed.

(** ** Uploading one image *)

Section Upload.

Import S3.

Variable refuses : string -> option JsError.

Context {W : Type} (h : handler answer W).

Lemma requests_app (a b : list (entry answer)) : requests (a ++ b) = requests a ++ requests b.
Proof. apply omap_app. Qed.

Lemma sends_app (a b : list (entry answer)) : sends (a ++ b) = sends a ++ sends b.
Proof. apply omap_app. Qed.

(** The [catch] block logs once and returns the "not uploaded" record. *)
Lemma upload_catch_run arg error s :
  exists text : string, exists method : console_method,
    run h (upload_catch arg error) s =
    mkExecution (Returned (UploadReturnType.mk (UploadToS3Type.location arg) false))
                [Entry (console method text) (h (console method text) s).1]
                (h (console method text) s).2.
Proof.
  unfold upload_catch. destruct (is_ENOTFOUND error); eexists _, _; by rewrite run_Vis.
Qed.

(** The download inside the [try] block, summarised: it made no S3 request,
    and it resolved exactly when one of its requests completed with 2xx. *)
Lemma processImage_summary url s :
  let d := run h (processImage refuses url None None) s in
  sends (trace d) = [] /\
  existsb (fun uo => succeeded uo.2) (requests (trace d)) =
  match outcome d with
  | Returned _ => true
  | Thrown _ => false
  end.
Proof.
  intros d. unfold processImage in d.
  destruct (refuses url) as [thrown|] eqn:Haccepted.
  { subst d. by rewrite (attempt_refused refuses h url _ _ thrown s Haccepted). }
  destruct (attempt_run refuses h url (default 1500 None) _ Haccepted (default 3 None) s eq_refl)
    as (_ & _ & Hsends & earlier & o & Hreq & Hearlier & Hout).
  fold d in Hsends, Hreq, Hout. split; [done|].
  rewrite Hreq, existsb_app. simpl.
  assert (existsb (fun uo : string * RequestOutcome => succeeded uo.2) earlier = false) as ->.
  { clear -Hearlier. induction Hearlier as [|uo l Huo _ IH]; simpl; [done|]. by rewrite Huo, IH. }
  destruct (outcome d).
  - destruct Hout as [-> _]. done.
  - destruct Hout as (_ & -> & _). done.
Qed.

(** The [try] block returns only the "uploaded" record, and it returns
    exactly when a request of the download completed with 2xx and the S3
    command was accepted. *)
Lemma upload_try_run env arg s :
  let t := run h (upload_try refuses env arg) s in
  existsb (fun uo => succeeded uo.2) (requests (trace t)) && existsb put_succeeded (sends (trace t)) =
  match outcome t with
  | Returned _ => true
  | Thrown _ => false
  end /\
  forall result, outcome t = Returned result ->
                 result = UploadReturnType.mk (UploadToS3Type.location arg) true.
Proof.
  unfold upload_try.
  destruct (truthy_string (UploadToS3Type.originalImgLink arg)); simpl; [|done].
  destruct (configureS3 env) as [s3|]; simpl; [|done].
  rewrite run_bind.
  destruct (processImage_summary (default ""%string (UploadToS3Type.originalImgLink arg)) s)
    as [Hsends Hreqs].
  destruct (outcome (run h (processImage refuses _ None None) s)) as [body|e] eqn:Hd;
    cbn [outcome trace final].
  - rewrite run_Vis.
    match goal with |- context [h (s3_send ?c ?m) ?w] => destruct (h (s3_send c m) w) as [[u|e] s1] end;
      cbn [fst snd await bind]; rewrite ?run_Vis; cbn [outcome trace final run fst snd].
    + rewrite requests_app, sends_app, Hsends, existsb_app, Hreqs. simpl. split; [done|].
      by intros result [= <-].
    + rewrite requests_app, sends_app, Hsends, existsb_app, Hreqs. simpl. done.
  - rewrite Hreqs. done.
Qed.

End Upload.

Section UploadClaims.

Import S3.

Variable refuses : string -> option JsError.

Context {W : Type} (h : handler answer W).

(** C2. When the error caught by [uploadImageToS3] is a DNS-resolution
    failure (its [code] is "ENOTFOUND" or its [message] contains
    "ENOTFOUND"), the call does not reject: it returns
    [{ location, uploaded: false }] with the [location] of its input. *)
Theorem uploadImageToS3_ENOTFOUND (env : ProcessEnv) (arg : UploadToS3Type.t) (s : W)
  (error : JsError) :
  outcome (run h (upload_try refuses env arg) s) = Thrown error ->
  code error = Some "ENOTFOUND"%string \/ includes (message error) "ENOTFOUND" = true ->
  outcome (run h (uploadImageToS3 refuses env arg) s) =
  Returned (UploadReturnType.mk (UploadToS3Type.location arg) false).
Proof.
  intros Hthrown Hdns. unfold uploadImageToS3. rewrite run_try_catch, Hthrown.
  assert (is_ENOTFOUND error = true) as Hcheck.
  { unfold is_ENOTFOUND. destruct Hdns as [-> | ->]; [done | apply orb_true_r]. }
  cbn [outcome]. unfold upload_catch. rewrite Hcheck. by rewrite run_Vis.
Qed.

(** C3. [uploadImageToS3] never rejects: whatever the environment does, it
    returns a record with the [location] of its input.  [uploaded] is
    [true] exactly when a request of the download completed with a 2xx
    status and the S3 command was accepted, which is exactly when the [try]
    block ran to its end; every error thrown inside the [try] block gives
    [uploaded: false]. *)
Theorem uploadImageToS3_never_rejects (env : ProcessEnv) (arg : UploadToS3Type.t) (s : W) :
  let r := run h (uploadImageToS3 refuses env arg) s in
  exists uploaded : bool,
    outcome r = Returned (UploadReturnType.mk (UploadToS3Type.location arg) uploaded) /\
    uploaded = existsb (fun uo => succeeded uo.2) (requests (trace r))
               && existsb put_succeeded (sends (trace r)) /\
    uploaded = match outcome (run h (upload_try refuses env arg) s) with
               | Returned _ => true
               | Thrown _ => false
               end.
Proof.
  intros r. unfold uploadImageToS3 in r.
  destruct (upload_try_run refuses h env arg s) as [Hexact Hresult].
  subst r. rewrite run_try_catch.
  destruct (outcome (run h (upload_try refuses env arg) s)) as [result|error] eqn:Ht.
  - exists true. rewrite Ht, Hexact, (Hresult result eq_refl). done.
  - destruct (upload_catch_run h arg error (final (run h (upload_try refuses env arg) s)))
      as (text & method & ->).
    exists false. cbn [outcome trace final].
    rewrite requests_app, sends_app, !existsb_app. simpl. rewrite !orb_false_r.
    by rewrite Hexact.
Qed.

(** C7. The result of [uploadImageToS3] is a record
    [{ location, uploaded }] whose [location] is the [location] of the
    input, in every outcome: when the [try] block ran to its end
    ([uploaded: true]), when it threw a DNS-resolution failure and when it
    threw any other error (both [uploaded: false]). *)
Theorem uploadImageToS3_location (env : ProcessEnv) (arg : UploadToS3Type.t) (s : W) :
  exists result : UploadReturnType.t,
    outcome (run h (uploadImageToS3 refuses env arg) s) = Returned result /\
    UploadReturnType.location result = UploadToS3Type.location arg /\
    UploadReturnType.uploaded result =
    match outcome (run h (upload_try refuses env arg) s) with
    | Returned _ => true
    | Thrown _ => false
    end.
Proof.
  unfold uploadImageToS3. rewrite run_try_catch.
  destruct (upload_try_run refuses h env arg s) as [_ Hresult].
  destruct (outcome (run h (upload_try refuses env arg) s)) as [result|error] eqn:Ht.
  - exists result. rewrite Ht, (Hresult result eq_refl). done.
  - destruct (upload_catch_run h arg error (final (run h (upload_try refuses env arg) s)))
      as (text & method & ->).
    eexists; split; done.
Qed.

(** C10. When [originalImgLink] is [undefined] or empty, [uploadImageToS3]
    makes no HTTPS request and sends no S3 command, and returns
    [{ location, uploaded: false }] without throwing. *)
Theorem uploadImageToS3_without_link (env : ProcessEnv) (arg : UploadToS3Type.t) (s : W) :
  UploadToS3Type.originalImgLink arg = None \/
  UploadToS3Type.originalImgLink arg = Some ""%string ->
  let r := run h (uploadImageToS3 refuses env arg) s in
  outcome r = Returned (UploadReturnType.mk (UploadToS3Type.location arg) false) /\
  requests (trace r) = [] /\
  sends (trace r) = [] /\
  wire (trace r) = [].
Proof.
  intros Hlink r. subst r. unfold uploadImageToS3, upload_try.
  assert (truthy_string (UploadToS3Type.originalImgLink arg) = false) as ->
    by (by destruct Hlink as [-> | ->]).
  cbn [negb try_catch].
  destruct (upload_catch_run h arg (new_Error "Image link is undefined") s)
    as (text & method & ->).
  done.
Qed.

End UploadClaims.

Lemma uploadImageToS3_ENOTFOUND_witness :
  let world := Scenario.scripted (fun _ => S3.request_error Scenario.getaddrinfo_ENOTFOUND)
                                 (Fulfilled tt) in
  outcome (run world (S3.upload_try Scenario.https_only Scenario.env (Scenario.image "a.png"))
             0%nat)
  = Thrown Scenario.getaddrinfo_ENOTFOUND /\
  (code Scenario.getaddrinfo_ENOTFOUND = Some "ENOTFOUND"%string \/
   includes (message Scenario.getaddrinfo_ENOTFOUND) "ENOTFOUND" = true) /\
  outcome (run world (S3.uploadImageToS3 Scenario.https_only Scenario.env (Scenario.image "a.png"))
             0%nat)
  = Returned (UploadReturnType.mk "recipes/a.png" false).
Proof.
  intros world.
  split; [vm_compute; reflexivity|]. split; [left; reflexivity|].
  apply (uploadImageToS3_ENOTFOUND Scenario.https_only world Scenario.env (Scenario.image "a.png") 0%nat
           Scenario.getaddrinfo_ENOTFOUND); [vm_compute; reflexivity | left; reflexivity].
Defined.

Lemma uploadImageToS3_without_link_witness :
  let world := Scenario.scripted Scenario.third_time_lucky (Fulfilled tt) in
  let arg := UploadToS3Type.mk None (Some "user-1"%string) "recipes/b.png" in
  (UploadToS3Type.originalImgLink arg = None \/
   UploadToS3Type.originalImgLink arg = Some ""%string) /\
  let r := run world (S3.uploadImageToS3 Scenario.https_only Scenario.env arg) 0%nat in
  outcome r = Returned (UploadReturnType.mk (UploadToS3Type.location arg) false) /\
  S3.requests (trace r) = [] /\
  S3.sends (trace r) = [] /\
  S3.wire (trace r) = [].
Proof.
  intros world arg. split; [left; reflexivity|].
  apply (uploadImageToS3_without_link Scenario.https_only world Scenario.env arg 0%nat). left; reflexivity.
Defined.

(** The four errors of the [try] block, each downgraded: no link, no
    client, a download that failed four times, an S3 command refused. *)
Example uploadImageToS3_downgrades :
  let ok := Scenario.scripted Scenario.third_time_lucky in
  let down := Scenario.scripted (fun _ => S3.response_end Scenario.unavailable) in
  let no_keys := S3.mkProcessEnv None None None None None in
  let not_uploaded n := Returned (UploadReturnType.mk ("recipes/" ++ n)%string false) in
  outcome (run (ok (Fulfilled tt))
             (S3.uploadImageToS3 Scenario.https_only Scenario.env (UploadToS3Type.mk (Some ""%string) None "recipes/a.png")) 0%nat)
  = not_uploaded "a.png"%string /\
  outcome (run (ok (Fulfilled tt)) (S3.uploadImageToS3 Scenario.https_only no_keys (Scenario.image "a.png")) 0%nat)
  = not_uploaded "a.png"%string /\
  outcome (run (down (Fulfilled tt)) (S3.uploadImageToS3 Scenario.https_only Scenario.env (Scenario.image "a.png")) 0%nat)
  = not_uploaded "a.png"%string /\
  outcome (run (ok (Rejected Scenario.AccessDenied))
             (S3.uploadImageToS3 Scenario.https_only Scenario.env (Scenario.image "a.png")) 0%nat)
  = not_uploaded "a.png"%string /\
  outcome (run (ok (Fulfilled tt)) (S3.uploadImageToS3 Scenario.https_only Scenario.env (Scenario.image "a.png")) 0%nat)
  = Returned (UploadReturnType.mk "recipes/a.png" true).
Proof. vm_compute. repeat split. Qed.

(** ** Calls in flight together *)

Section FanoutFacts.

Context {effect : Type} {answer : effect -> Type} {A W : Type}.
Variable h : handler answer W.

Implicit Types (c : fanout answer A W) (p q : prog answer A) (ps : list (prog answer A)).

Lemma resume_length i c : length (tasks (resume h i c)) = length (tasks c).
Proof.
  unfold resume. destruct (tasks c !! i) as [[a|e|e k]|]; try done.
  destruct (h e (world c)) as [x s1]; simpl. apply length_insert.
Qed.

Lemma interleave_cons i schedule c :
  interleave h (i :: schedule) c = interleave h schedule (resume h i c).
Proof. done. Qed.

Lemma interleave_length schedule c :
  length (tasks (interleave h schedule c)) = length (tasks c).
Proof.
  revert c; induction schedule as [|i schedule IH]; intros c; [done|].
  by rewrite interleave_cons, IH, resume_length.
Qed.

(** Resuming one call leaves every other call where it was: the calls share
    nothing but the world outside. *)
Lemma resume_other i j c : i <> j -> tasks (resume h i c) !! j = tasks c !! j.
Proof.
  intros Hij. unfold resume. destruct (tasks c !! i) as [[a|e|e k]|]; try done.
  destruct (h e (world c)) as [x s1]; simpl. by apply list_lookup_insert_ne.
Qed.

Lemma resume_settled i j c p :
  tasks c !! j = Some p -> is_settled p = true -> tasks (resume h i c) !! j = Some p.
Proof.
  intros Hj Hp. destruct (decide (i = j)) as [->|Hij].
  - unfold resume. rewrite Hj. by destruct p.
  - by rewrite resume_other.
Qed.

Lemma interleave_settled schedule j c p :
  tasks c !! j = Some p -> is_settled p = true ->
  tasks (interleave h schedule c) !! j = Some p.
Proof.
  revert c; induction schedule as [|i schedule IH]; intros c Hj Hp; [done|].
  rewrite interleave_cons. apply IH; [by apply resume_settled | done].
Qed.

Lemma own_trace_snoc i j (en : entry answer) hist :
  own_trace i (hist ++ [(j, en)]) = own_trace i hist ++ (if decide (j = i) then [en] else []).
Proof.
  unfold own_trace. rewrite filter_app, fmap_app. f_equal.
  rewrite filter_cons. simpl. by case_decide.
Qed.

Lemma tracks_spawn ps (s : W) : tracks ps (spawn ps s).
Proof. intros i p Hi. exists p. split; [done | constructor]. Qed.

Lemma tracks_resume ps i c : tracks ps c -> tracks ps (resume h i c).
Proof.
  intros Hinv j p Hj. destruct (Hinv j p Hj) as (q & Hq & Hadv).
  unfold resume. destruct (tasks c !! i) as [[a|e|e k]|] eqn:Hi; eauto.
  destruct (h e (world c)) as [x s1]; simpl. rewrite own_trace_snoc.
  case_decide as Hij.
  - subst j. rewrite Hq in Hi. injection Hi as ->.
    exists (k x). split.
    + apply list_lookup_insert_eq. by eapply lookup_lt_Some.
    + by apply advances_snoc.
  - exists q. rewrite app_nil_r. split; [by rewrite list_lookup_insert_ne | done].
Qed.

Lemma tracks_interleave ps schedule c : tracks ps c -> tracks ps (interleave h schedule c).
Proof.
  revert c; induction schedule as [|i schedule IH]; intros c Hinv; [done|].
  rewrite interleave_cons. apply IH. by apply tracks_resume.
Qed.

(** Every effect in the history was performed by one of the calls. *)
Lemma history_resume i c :
  Forall (fun ie => ie.1 < length (tasks c))%nat (history c) ->
  Forall (fun ie => ie.1 < length (tasks (resume h i c)))%nat (history (resume h i c)).
Proof.
  intros Hinv. rewrite resume_length.
  unfold resume. destruct (tasks c !! i) as [[a|e|e k]|] eqn:Hi; try done.
  destruct (h e (world c)) as [x s1]; simpl.
  apply Forall_app. split; [done|]. constructor; [|constructor].
  simpl. by eapply lookup_lt_Some.
Qed.

Lemma history_interleave schedule c :
  Forall (fun ie => ie.1 < length (tasks c))%nat (history c) ->
  Forall (fun ie => ie.1 < length (tasks c))%nat (history (interleave h schedule c)).
Proof.
  revert c; induction schedule as [|i schedule IH]; intros c Hinv; [done|].
  rewrite interleave_cons, <- (resume_length i c). apply IH. by apply history_resume.
Qed.

(** A call that performs at most [n] effects has ended once the schedule
    has resumed it [n] times. *)
Lemma interleave_settles schedule :
  forall c i p n,
    tasks c !! i = Some p -> within n p -> (n <= turns i schedule)%nat ->
    exists q, tasks (interleave h schedule c) !! i = Some q /\ is_settled q = true.
Proof.
  induction schedule as [|j schedule IH]; intros c i p n Hi Hn Hturns.
  - unfold turns in Hturns; simpl in Hturns. exists p. split; [done|].
    destruct p, n; simpl in *; try done; lia.
  - destruct (is_settled p) eqn:Hp.
    { exists p. split; [by apply interleave_settled | done]. }
    destruct p as [a|e|e k]; try done. rewrite interleave_cons.
    unfold turns in Hturns. rewrite filter_cons in Hturns.
    case_decide as Hji.
    + subst j. destruct n as [|n]; [done|]. simpl in Hn, Hturns.
      apply (IH _ i (k (h e (world c)).1) n); [| apply Hn | unfold turns; lia].
      unfold resume. rewrite Hi. destruct (h e (world c)) as [x s1]; simpl.
      apply list_lookup_insert_eq. by eapply lookup_lt_Some.
    + apply (IH _ i (Vis e k) n); [| done | done].
      by rewrite resume_other.
Qed.

Section NeverThrown.

(** Calls that cannot end by throwing. *)
Variable P : completion A -> Prop.
Hypothesis P_returned : forall e, ~ P (Thrown e).

Lemma ends_in_no_rejection p : ends_in P p -> rejection_of p = None.
Proof. destruct p; simpl; try done. intros HP. by apply P_returned in HP. Qed.

Lemma spawn_no_rejection ps (s : W) :
  Forall (ends_in P) ps -> first_rejection (spawn ps s) = None.
Proof.
  simpl. induction 1 as [|p ps Hp _ IH]; simpl; [done|].
  by rewrite (ends_in_no_rejection p Hp).
Qed.

Lemma resume_ends_in i c :
  Forall (ends_in P) (tasks c) -> Forall (ends_in P) (tasks (resume h i c)).
Proof.
  intros Hinv. unfold resume. destruct (tasks c !! i) as [[a|e|e k]|] eqn:Hi; try done.
  destruct (h e (world c)) as [x s1]; simpl.
  apply Forall_insert; [done|].
  rewrite Forall_lookup in Hinv. apply (Hinv _ _ Hi).
Qed.

Lemma resume_no_rejection i c :
  Forall (ends_in P) (tasks c) -> first_rejection c = None ->
  first_rejection (resume h i c) = None.
Proof.
  intros Hinv Hnone. unfold resume. destruct (tasks c !! i) as [[a|e|e k]|] eqn:Hi; try done.
  destruct (h e (world c)) as [x s1]; simpl. rewrite Hnone.
  apply ends_in_no_rejection.
  rewrite Forall_lookup in Hinv. apply (Hinv _ _ Hi).
Qed.

Lemma interleave_never_thrown schedule c :
  Forall (ends_in P) (tasks c) -> first_rejection c = None ->
  Forall (ends_in P) (tasks (interleave h schedule c)) /\
  first_rejection (interleave h schedule c) = None.
Proof.
  revert c; induction schedule as [|i schedule IH]; intros c Hinv Hnone; [done|].
  rewrite interleave_cons. apply IH; [by apply resume_ends_in | by apply resume_no_rejection].
Qed.

(** [Promise.all] of such calls, once all have ended, is fulfilled with
    their values in the order of the calls. *)
Lemma Promise_all_fulfilled c :
  Forall (ends_in P) (tasks c) -> first_rejection c = None ->
  Forall (fun p => is_settled p = true) (tasks c) ->
  exists values, Promise_all c = Some (Fulfilled values) /\
                 Forall2 (fun p v => p = Ret v) (tasks c) values.
Proof.
  intros Hinv Hnone Hsettled. unfold Promise_all. rewrite Hnone.
  assert (exists values, Forall2 (fun p v => p = Ret v) (tasks c) values) as [values Hvalues].
  { clear Hnone. induction (tasks c) as [|p ps IH]; [by exists []|].
    inversion Hinv; inversion Hsettled; subst.
    destruct IH as [values Hvalues]; [done..|].
    destruct p as [a|e|e k]; simpl in *; try done.
    - exists (a :: values). by constructor.
    - by exfalso; eapply P_returned. }
  exists values. split; [|done].
  assert (mapM value_of (tasks c) = Some values) as ->; [|done].
  apply mapM_Some. eapply Forall2_impl; [done|]. by intros p v ->.
Qed.

End NeverThrown.

End FanoutFacts.

Section ScheduleFacts.

Lemma turns_app i (schedule1 schedule2 : list nat) :
  turns i (schedule1 ++ schedule2) = (turns i schedule1 + turns i schedule2)%nat.
Proof. unfold turns. by rewrite filter_app, length_app. Qed.

Lemma turns_seq i a n :
  turns i (seq a n) = if decide (a <= i < a + n)%nat then 1%nat else 0%nat.
Proof.
  revert a; induction n as [|n IH]; intros a; simpl.
  - case_decide; [lia | done].
  - unfold turns in *. rewrite filter_cons. specialize (IH (S a)).
    repeat case_decide; simpl; rewrite ?IH; repeat case_decide; lia.
Qed.

Lemma turns_round_robin i rounds n :
  (i < n)%nat -> turns i (round_robin rounds n) = rounds.
Proof.
  intros Hi. unfold round_robin. induction rounds as [|rounds IH]; simpl; [done|].
  rewrite turns_app, IH, turns_seq. case_decide; lia.
Qed.

End ScheduleFacts.

(** ** Uploading several images *)

Section UploadAll.

Import S3.

Variable refuses : string -> option JsError.

Lemma attempt_within url delay (k : nat) :
  forall n, Z.to_nat n = k -> within (3 * k + 2) (attempt refuses url delay n).
Proof.
  destruct (refuses url) as [thrown|] eqn:Haccepted.
  { intros n _. by rewrite attempt_equation_1, Haccepted. }
  induction k as [|k IH]; intros n Hk; rewrite attempt_equation_1, Haccepted;
    [|replace (3 * S k + 2)%nat with (S (S (S (3 * k + 2)))) by lia];
    cbn [within]; intros [response|err]; try destruct (status_ok (statusCode response));
    destruct (Z_lt_dec 0 n) as [Hn|Hn]; try lia; cbn [within]; try done.
  all: intros _ _; apply IH; lia.
Qed.

Lemma uploadImageToS3_within env arg : within upload_effects (uploadImageToS3 refuses env arg).
Proof.
  unfold uploadImageToS3, upload_effects.
  apply (within_try_catch 13 1).
  - unfold upload_try.
    destruct (truthy_string (UploadToS3Type.originalImgLink arg)); simpl; [|done].
    destruct (configureS3 env) as [s3|]; simpl; [|done].
    apply (within_bind 11 2).
    + apply (attempt_within _ _ 3). done.
    + intros body. simpl. by intros [u|e].
  - intros error. unfold upload_catch. by destruct (is_ENOTFOUND error).
Qed.

(** However a call of [uploadImageToS3] ends, it ends by returning a record
    with the [location] of its argument. *)
Lemma uploadImageToS3_ends_in env arg :
  ends_in (fun c => exists uploaded,
                      c = Returned (UploadReturnType.mk (UploadToS3Type.location arg) uploaded))
          (uploadImageToS3 refuses env arg).
Proof.
  unfold uploadImageToS3. apply ends_in_try_catch.
  assert (forall error,
             ends_in (fun c => exists uploaded,
                                 c = Returned (UploadReturnType.mk (UploadToS3Type.location arg) uploaded))
                     (upload_catch arg error)) as Hcatch.
  { intros error. unfold upload_catch. destruct (is_ENOTFOUND error); simpl; eauto. }
  unfold upload_try.
  destruct (truthy_string (UploadToS3Type.originalImgLink arg)); cbn [negb]; [|apply Hcatch].
  destruct (configureS3 env) as [s3|]; [|apply Hcatch].
  apply ends_in_bind, ends_in_always. intros [body|error]; [|apply Hcatch].
  cbn [ends_in]. intros [u|e]; [|apply Hcatch]. simpl; eauto.
Qed.

Lemma uploadImageToS3_returns env arg : ends_in returns (uploadImageToS3 refuses env arg).
Proof.
  eapply ends_in_weaken; [|apply uploadImageToS3_ends_in]. by intros c [uploaded ->].
Qed.

Context {W : Type} (h : handler answer W).

(** The calls of [uploadImagesToS3], at any point of any schedule: none has
    rejected, and none can. *)
Lemma uploadImagesToS3_calls_never_thrown env schedule arr (s : W) :
  let c := uploadImagesToS3_calls refuses env h schedule arr s in
  Forall (ends_in returns) (tasks c) /\ first_rejection c = None.
Proof.
  assert (Forall (ends_in (answer := answer) returns) (uploadImageToS3 refuses env <$> arr)) as Hall.
  { apply Forall_fmap, Forall_forall. intros arg _. apply uploadImageToS3_returns. }
  intros c. subst c. unfold uploadImagesToS3_calls.
  apply (interleave_never_thrown h returns (fun e H => H)); [done|].
  by apply (spawn_no_rejection returns (fun e H => H)).
Qed.

(** Once every call has had [upload_effects] turns, [Promise.all] is
    fulfilled. *)
Lemma uploadImagesToS3_fair env schedule arr (s : W) :
  (forall i, (i < length arr)%nat -> (upload_effects <= turns i schedule)%nat) ->
  exists results, uploadImagesToS3 refuses env h schedule arr s = Some (Some results).
Proof.
  intros Hfair. unfold uploadImagesToS3.
  destruct (uploadImagesToS3_calls_never_thrown env schedule arr s) as [Hall Hnone].
  destruct (Promise_all_fulfilled returns (fun e H => H) _ Hall Hnone) as (results & -> & _);
    [|by exists results].
  apply Forall_lookup. intros i q Hq.
  assert (i < length arr)%nat as Hi.
  { apply lookup_lt_Some in Hq. unfold uploadImagesToS3_calls in Hq.
    rewrite interleave_length in Hq. simpl in Hq. by rewrite length_fmap in Hq. }
  destruct (lookup_lt_is_Some_2 arr i Hi) as [arg Harg].
  destruct (interleave_settles h schedule (spawn (uploadImageToS3 refuses env <$> arr) s) i
              (uploadImageToS3 refuses env arg) upload_effects) as (q' & Hq' & Hsettled).
  - simpl. by rewrite list_lookup_fmap, Harg.
  - apply uploadImageToS3_within.
  - by apply Hfair.
  - unfold uploadImagesToS3_calls in Hq. rewrite Hq in Hq'. by injection Hq' as ->.
Qed.

Lemma uploadImagesToS3_calls_length env schedule arr (s : W) :
  length (tasks (uploadImagesToS3_calls refuses env h schedule arr s)) = length arr.
Proof.
  unfold uploadImagesToS3_calls. rewrite interleave_length. simpl. apply length_fmap.
Qed.

(** A fulfilled [uploadImagesToS3] holds the values of the calls, in the
    order of the calls. *)
Lemma uploadImagesToS3_values env schedule arr (s : W) results :
  uploadImagesToS3 refuses env h schedule arr s = Some (Some results) ->
  Forall2 (fun p v => p = Ret v) (tasks (uploadImagesToS3_calls refuses env h schedule arr s)) results.
Proof.
  intros Hresults. unfold uploadImagesToS3 in Hresults.
  destruct (uploadImagesToS3_calls_never_thrown env schedule arr s) as [_ Hnone].
  unfold Promise_all in Hresults. rewrite Hnone in Hresults.
  destruct (mapM value_of (tasks (uploadImagesToS3_calls refuses env h schedule arr s)))
    as [values|] eqn:Hvalues; simpl in Hresults; [|done].
  injection Hresults as ->. apply mapM_Some in Hvalues.
  eapply Forall2_impl; [done|]. intros [a|e|e k] v; simpl; congruence.
Qed.

End UploadAll.

Section UploadAllClaims.

Import S3.

Variable refuses : string -> option JsError.

Context {W : Type} (h : handler answer W).

(** X21 (the part of C6 that can be stated).  [uploadImagesToS3] starts one
    call of [uploadImageToS3] per element of the array and nothing else
    performs effects.  In whatever order the event loop resumes the calls,
    each call is where its own effects, answered as recorded, lead
    [uploadImageToS3] of its own element.  When the promise is fulfilled, the
    array has the length of the input, and its element [i] is what the call
    for element [i] of the input returned, with the [location] of that
    element.  That the calls run in parallel is how [Promise.all] over
    [map] is modelled, not something this theorem adds. *)
Theorem uploadImagesToS3_one_result_per_image (env : ProcessEnv) (schedule : list nat)
  (arr : list UploadToS3Type.t) (s : W) (results : list UploadReturnType.t) :
  uploadImagesToS3 refuses env h schedule arr s = Some (Some results) ->
  let c := uploadImagesToS3_calls refuses env h schedule arr s in
  length (tasks c) = length arr /\
  Forall (fun ie => ie.1 < length arr)%nat (history c) /\
  length results = length arr /\
  forall i arg,
    arr !! i = Some arg ->
    exists result,
      results !! i = Some result /\
      tasks c !! i = Some (Ret result) /\
      advances (uploadImageToS3 refuses env arg) (own_trace i (history c)) (Ret result) /\
      UploadReturnType.location result = UploadToS3Type.location arg.
Proof.
  intros Hresults c.
  pose proof (uploadImagesToS3_calls_length refuses h env schedule arr s) as Hlen. fold c in Hlen.
  pose proof (uploadImagesToS3_values refuses h env schedule arr s results Hresults) as Hvalues.
  fold c in Hvalues.
  split; [done|]. split; [|split].
  - replace (length arr) with (length (tasks (spawn (uploadImageToS3 refuses env <$> arr) s)))
      by (simpl; apply length_fmap).
    apply history_interleave. constructor.
  - rewrite <- Hlen. symmetry. by eapply Forall2_length.
  - intros i arg Harg.
    destruct (tracks_interleave h (uploadImageToS3 refuses env <$> arr) schedule
                (spawn (uploadImageToS3 refuses env <$> arr) s)
                (tracks_spawn (uploadImageToS3 refuses env <$> arr) s) i (uploadImageToS3 refuses env arg))
      as (q & Hq & Hadv); [by rewrite list_lookup_fmap, Harg|].
    fold (uploadImagesToS3_calls refuses env h schedule arr s) in Hq, Hadv. fold c in Hq, Hadv.
    destruct (Forall2_lookup_l _ _ _ _ _ Hvalues Hq) as (result & Hresult & ->).
    exists result. repeat split; try done.
    pose proof (ends_in_advances _ _ _ _ (uploadImageToS3_ends_in refuses env arg) Hadv) as Hend.
    simpl in Hend. destruct Hend as [uploaded [= ->]]. done.
Qed.

(** C9. [uploadImagesToS3] never returns [null]: no call of
    [uploadImageToS3] rejects, so [Promise.all] does not reject and the
    [catch] block is not reached, at any point of any schedule.  And an array
    is returned: from any point on, once the event loop has resumed every
    call [upload_effects] times more, the promise is fulfilled with an array
    as long as the input. *)
Theorem uploadImagesToS3_never_null (env : ProcessEnv) (schedule : list nat)
  (arr : list UploadToS3Type.t) (s : W) :
  uploadImagesToS3 refuses env h schedule arr s <> Some None /\
  exists results,
    uploadImagesToS3 refuses env h (schedule ++ round_robin upload_effects (length arr)) arr s
    = Some (Some results) /\
    length results = length arr.
Proof.
  split.
  - unfold uploadImagesToS3.
    destruct (uploadImagesToS3_calls_never_thrown refuses h env schedule arr s) as [_ Hnone].
    unfold Promise_all. rewrite Hnone.
    by destruct (mapM value_of (tasks (uploadImagesToS3_calls refuses env h schedule arr s))).
  - destruct (uploadImagesToS3_fair refuses h env (schedule ++ round_robin upload_effects (length arr))
                arr s) as [results Hresults].
    + intros i Hi. rewrite turns_app, turns_round_robin by done. lia.
    + exists results. split; [done|].
      rewrite <- (uploadImagesToS3_calls_length refuses h env
                    (schedule ++ round_robin upload_effects (length arr)) arr s).
      symmetry. eapply Forall2_length. by apply uploadImagesToS3_values.
Qed.

End UploadAllClaims.

Lemma uploadImagesToS3_one_result_per_image_witness :
  let world := Scenario.scripted
                 (fun i => match i with
                           | O => S3.response_end Scenario.png
                           | _ => S3.response_end Scenario.unavailable
                           end) (Fulfilled tt) in
  let arr := [Scenario.image "a.png"; Scenario.image "b.png"] in
  let schedule := round_robin S3.upload_effects 2 in
  let results := [UploadReturnType.mk "recipes/a.png" true;
                  UploadReturnType.mk "recipes/b.png" false] in
  S3.uploadImagesToS3 Scenario.https_only Scenario.env world schedule arr 0%nat = Some (Some results) /\
  let c := S3.uploadImagesToS3_calls Scenario.https_only Scenario.env world schedule arr 0%nat in
  length (tasks c) = length arr /\
  Forall (fun ie => ie.1 < length arr)%nat (history c) /\
  length results = length arr /\
  forall i arg,
    arr !! i = Some arg ->
    exists result,
      results !! i = Some result /\
      tasks c !! i = Some (Ret result) /\
      advances (S3.uploadImageToS3 Scenario.https_only Scenario.env arg) (own_trace i (history c)) (Ret result) /\
      UploadReturnType.location result = UploadToS3Type.location arg.
Proof.
  intros world arr schedule results.
  split; [vm_compute; reflexivity|].
  apply (uploadImagesToS3_one_result_per_image Scenario.https_only world Scenario.env schedule arr 0%nat results).
  vm_compute; reflexivity.
Defined.

(** ** Connecting to the database *)

Section Connect.

Import Mongo.

Context {W : Type}.
Variable connect : string -> ConnectOptions -> W -> settled Mongoose * W.
Variable uri : string.

(** A call that finds the flag set returns at once: it reads the flag and
    does nothing else. *)
Lemma connectDB_connected (p : process W) :
  isConnected p = true ->
  run (in_process connect) (connectDB uri) p =
  mkExecution (Returned tt) [Entry read_isConnected true] p.
Proof. intros Hp. unfold connectDB. simpl. by rewrite Hp. Qed.

Lemma connectDB_times_connected (n : nat) (p : process W) :
  isConnected p = true ->
  Forall (fun r => r = mkExecution (Returned tt) [Entry read_isConnected true] p)
         (connectDB_times (in_process connect) uri n p).
Proof.
  intros Hp. induction n as [|n IH]; cbn [connectDB_times]; [constructor|].
  rewrite connectDB_connected by done. by constructor.
Qed.

(** C8, for calls that run one after another.  Once a call of [connectDB]
    has succeeded and left [isConnected] set, every later call returns
    immediately: it reads the flag, does not call [mongoose.connect], and
    leaves the flag set.  So no connection attempt is made after one that
    set the flag. *)
Theorem connectDB_idempotent_in_sequence (n : nat) (p0 : process W) (i j : nat)
  (r r' : execution answer unit (process W)) :
  connectDB_times (in_process connect) uri n p0 !! i = Some r ->
  outcome r = Returned tt ->
  isConnected (final r) = true ->
  (i < j)%nat ->
  connectDB_times (in_process connect) uri n p0 !! j = Some r' ->
  outcome r' = Returned tt /\
  trace r' = [Entry read_isConnected true] /\
  List.filter connect_entry (trace r') = [] /\
  isConnected (final r') = true.
Proof.
  revert p0 i j. induction n as [|n IH]; intros p0 i j Hi Hok Hset Hij Hj; [done|].
  cbn [connectDB_times] in Hi, Hj. destruct j as [|j]; [lia|]. destruct i as [|i].
  - injection Hi as <-. change (?x :: ?l) with ([x] ++ l) in Hj.
    rewrite (lookup_app_r [_]) in Hj by (simpl; lia).
    pose proof (connectDB_times_connected n _ Hset) as Hall.
    rewrite Forall_lookup in Hall. rewrite (Hall _ _ Hj). done.
  - apply (IH (final (run (in_process connect) (connectDB uri) p0)) i j);
      [exact Hi | done | done | lia | exact Hj].
Qed.

End Connect.

Lemma connectDB_idempotent_in_sequence_witness :
  let h := Mongo.in_process Scenario.always_up in
  let calls := Mongo.connectDB_times h Scenario.uri 3 (Mongo.mkProcess false tt) in
  exists r r',
    calls !! 0%nat = Some r /\
    outcome r = Returned tt /\
    Mongo.isConnected (final r) = true /\
    (0 < 2)%nat /\
    calls !! 2%nat = Some r' /\
    outcome r' = Returned tt /\
    trace r' = [Entry Mongo.read_isConnected true] /\
    List.filter Mongo.connect_entry (trace r') = [] /\
    Mongo.isConnected (final r') = true.
Proof.
  intros h calls.
  destruct (calls !! 0%nat) as [r|] eqn:Hr; [|discriminate].
  destruct (calls !! 2%nat) as [r'|] eqn:Hr'; [|discriminate].
  exists r, r'.
  assert (outcome r = Returned tt) as Hok by (by injection Hr as <-).
  assert (Mongo.isConnected (final r) = true) as Hset by (by injection Hr as <-).
  assert (0 < 2)%nat as Hlt by lia.
  repeat (split; [done|]).
  apply (connectDB_idempotent_in_sequence Scenario.always_up Scenario.uri 3
           (Mongo.mkProcess false tt) 0 2 r r' Hr Hok Hset Hlt Hr').
Defined.

(** C8 as stated fails for calls in flight together.  Two requests arrive
    at a fresh process and each calls [connectDB] before the other's
    connection is up: both find the flag unset, both call
    [mongoose.connect], and both connection attempts succeed. *)
Lemma connectDB_overlapping_calls_connect_twice :
  let c := interleave (Mongo.in_process Scenario.always_up) [0; 1; 0; 1; 0; 1; 0; 1]%nat
             (spawn [Mongo.connectDB Scenario.uri; Mongo.connectDB Scenario.uri]
                    (Mongo.mkProcess false tt)) in
  tasks c = [Ret tt; Ret tt] /\
  length (List.filter Mongo.connected_entry (snd <$> history c)) = 2%nat /\
  ~ (length (List.filter Mongo.connected_entry (snd <$> history c)) <= 1)%nat.
Proof. vm_compute. repeat split. lia. Qed.

(** Also one after another, a connection that reports [readyState] 0
    leaves the flag unset, and the next call connects again. *)
Example connectDB_unready_connection_connects_again :
  let idle (u : string) (o : Mongo.ConnectOptions) (s : unit) :=
    (Fulfilled {| Mongo.connections := [ {| Mongo.readyState := 0 |} ] |}, s) in
  let calls := Mongo.connectDB_times (Mongo.in_process idle) Scenario.uri 2
                 (Mongo.mkProcess false tt) in
  outcome <$> calls = [Returned tt; Returned tt] /\
  (fun r => length (List.filter Mongo.connected_entry (trace r))) <$> calls = [1; 1]%nat.
Proof. vm_compute. repeat split. Qed.

(** ** Guarding an API route *)

Section Guard.

Import Middleware.

Context {Function W : Type}.
Variable h : handler (answer Function) W.

Lemma methods_include_true (methods : list string) (m : option string) :
  methods_include methods m = true <-> exists name, m = Some name /\ In name methods.
Proof.
  unfold methods_include. destruct m as [name|]; [|split; [done | by intros (? & ? & _)]].
  rewrite existsb_exists. split.
  - intros (x & Hin & Heq). apply String.eqb_eq in Heq. subst x. eauto.
  - intros (x & [= <-] & Hin). exists name. split; [done | apply String.eqb_refl].
Qed.

Lemma methods_include_false (methods : list string) (m : option string) :
  methods_include methods m = false <-> forall name, m = Some name -> ~ In name methods.
Proof.
  rewrite <- not_true_iff_false, methods_include_true. split.
  - intros Hno name Hm Hin. apply Hno. eauto.
  - intros Hno (name & Hm & Hin). by apply (Hno name).
Qed.

Ltac answer_all :=
  repeat match goal with
         | |- context [h ?e ?s] => destruct (h e s) as [? ?]; cbn
         end.

(** C4. When the method of the request is not among the allowed methods
    (or the request has no method), the wrapped function sets status 405,
    sends [{ error: "Method not allowed" }] and does nothing else: it
    neither retrieves a session nor calls the handler. *)
Theorem apiMiddleware_method_not_allowed (methods : list string) (handler : Function)
  (req : NextApiRequest) (s : W) :
  (forall name, method req = Some name -> ~ In name methods) ->
  let r := run h (apiMiddleware methods handler req) s in
  effects_of (trace r)
  = [res_status 405; res_json (obj [("error", "Method not allowed")%string])] /\
  response_of (trace r)
  = mkResponse 405 (Some (obj [("error", "Method not allowed")%string])) /\
  handler_calls (trace r) = [] /\
  outcome r = Returned undefined.
Proof.
  intros Hmethod. apply methods_include_false in Hmethod.
  unfold apiMiddleware, guarded. rewrite Hmethod. cbn. answer_all. done.
Qed.

(** What the [try] block decides for an allowed method.  The wrapped
    function retrieves the session.  If there is no session, it answers 401
    and does not call the handler.  If an exception is thrown inside the
    [try] block (the retrieval of the session rejects, or the handler throws
    before it returns), it answers 500.  Otherwise it calls the handler
    exactly once, with the request and, as third argument, the session that
    was retrieved.  A handler that fails after it has returned its promise is
    not among these cases: see [apiMiddleware_async_handler_failure]. *)
Theorem apiMiddleware_allowed_method (methods : list string) (handler : Function)
  (req : NextApiRequest) (s : W) :
  (exists name, method req = Some name /\ In name methods) ->
  let r := run h (apiMiddleware methods handler req) s in
  (no_session (trace r) = true ->
   statusCode (response_of (trace r)) = 401 /\
   handler_calls (trace r) = []) /\
  (threw (trace r) = true ->
   statusCode (response_of (trace r)) = 500) /\
  (no_session (trace r) = false -> threw (trace r) = false ->
   exists session rest,
     trace r = Entry (answer := answer Function) (getServerSession req)
                     (Fulfilled (Some session)) :: rest /\
     handler_calls (trace r) = [(handler, req, session)]).
Proof.
  intros Hmethod. apply methods_include_true in Hmethod.
  unfold apiMiddleware, guarded. rewrite Hmethod. cbn.
  destruct (h (getServerSession req) s) as [[[session|]|e] s1]; cbn.
  - destruct (h (call handler req session) s1) as [[[v|[v|e]]|e] s2]; cbn;
      answer_all; repeat split; try done; eauto.
  - answer_all. repeat split; done.
  - answer_all. repeat split; done.
Qed.

(** The promise an [async] handler returns is handed on without being
    awaited inside the [try] block: when it rejects, the wrapped function
    rejects with the same reason, and the guard sends nothing. *)
Lemma apiMiddleware_rejecting_handler (methods : list string) (handler : Function)
  (req : NextApiRequest) (s : W) (session : Session) (e : JsError) :
  methods_include methods (method req) = true ->
  (h (getServerSession req) s).1 = Fulfilled (Some session) ->
  (h (call handler req session) (h (getServerSession req) s).2).1
  = call_returns (promise (Rejected e)) ->
  let r := run h (apiMiddleware methods handler req) s in
  outcome r = Thrown e /\
  response_of (trace r) = mkResponse 200 None /\
  threw (trace r) = false.
Proof.
  intros Hmethod Hsession Hcall.
  unfold apiMiddleware, guarded. rewrite Hmethod. cbn.
  destruct (h (getServerSession req) s) as [? s1]; simpl in *; subst; cbn.
  destruct (h (call handler req session) s1) as [? s2]; simpl in *; subst; cbn.
  done.
Qed.

End Guard.

Lemma apiMiddleware_method_not_allowed_witness :
  let h := Scenario.route (Fulfilled (Some Scenario.signed_in))
             (Middleware.call_returns (Middleware.plain Middleware.undefined)) in
  let methods := ["GET"%string] in
  (forall name, Middleware.method Scenario.post = Some name -> ~ In name methods) /\
  let r := run h (Middleware.apiMiddleware methods "saveRecipes"%string Scenario.post) tt in
  Middleware.effects_of (trace r)
  = [Middleware.res_status 405;
     Middleware.res_json (Middleware.obj [("error", "Method not allowed")%string])] /\
  Middleware.response_of (trace r)
  = Middleware.mkResponse 405 (Some (Middleware.obj [("error", "Method not allowed")%string])) /\
  Middleware.handler_calls (trace r) = [] /\
  outcome r = Returned Middleware.undefined.
Proof.
  intros h methods.
  assert (forall name, Middleware.method Scenario.post = Some name -> ~ In name methods) as Hmethod.
  { intros name [= <-] [Heq | []]. discriminate Heq. }
  split; [exact Hmethod|].
  apply (apiMiddleware_method_not_allowed h methods "saveRecipes"%string Scenario.post tt Hmethod).
Defined.

Lemma apiMiddleware_allowed_method_witness :
  let h := Scenario.route (Fulfilled (Some Scenario.signed_in))
             (Middleware.call_returns (Middleware.plain Middleware.undefined)) in
  let methods := ["GET"; "POST"]%string in
  (exists name, Middleware.method Scenario.post = Some name /\ In name methods) /\
  let r := run h (Middleware.apiMiddleware methods "saveRecipes"%string Scenario.post) tt in
  (Middleware.no_session (trace r) = true ->
   Middleware.statusCode (Middleware.response_of (trace r)) = 401 /\
   Middleware.handler_calls (trace r) = []) /\
  (Middleware.threw (trace r) = true ->
   Middleware.statusCode (Middleware.response_of (trace r)) = 500) /\
  (Middleware.no_session (trace r) = false -> Middleware.threw (trace r) = false ->
   exists session rest,
     trace r = Entry (answer := Middleware.answer string)
                     (Middleware.getServerSession Scenario.post)
                     (Fulfilled (Some session)) :: rest /\
     Middleware.handler_calls (trace r) = [("saveRecipes"%string, Scenario.post, session)]).
Proof.
  intros h methods.
  assert (exists name, Middleware.method Scenario.post = Some name /\ In name methods) as Hmethod.
  { exists "POST"%string. split; [reflexivity | right; left; reflexivity]. }
  split; [exact Hmethod|].
  apply (apiMiddleware_allowed_method h methods "saveRecipes"%string Scenario.post tt Hmethod).
Defined.

(** C5, at the input where the code departs from it.  The method is
    allowed, there is a session, and the handler is an [async] function that
    fails: it returns a promise that rejects.  The claim has the response be
    HTTP 500.  The code returns the promise without awaiting it inside the
    [try] block, so the [catch] block does not run: the guard calls neither
    [res.status] nor [res.json], the status is not 500, and the wrapped
    function rejects with the handler's reason. *)
Lemma apiMiddleware_async_handler_failure :
  let boom := mkJsError "Error" None "boom" in
  let h := Scenario.route (Fulfilled (Some Scenario.signed_in))
             (Middleware.call_returns (Middleware.promise (Rejected boom))) in
  let r := run h (Middleware.apiMiddleware ["POST"%string] "saveRecipes"%string Scenario.post) tt in
  Middleware.methods_include ["POST"%string] (Middleware.method Scenario.post) = true /\
  Middleware.effects_of (trace r)
  = [Middleware.getServerSession Scenario.post;
     Middleware.call "saveRecipes"%string Scenario.post Scenario.signed_in] /\
  Middleware.response_of (trace r) = Middleware.mkResponse 200 None /\
  Middleware.statusCode (Middleware.response_of (trace r)) <> 500 /\
  outcome r = Thrown boom.
Proof. vm_compute. repeat split. discriminate. Qed.

(** The outcomes of the guard, evaluated. *)
Example apiMiddleware_outcomes :
  let guard session reply :=
    let r := run (Scenario.route session reply)
                 (Middleware.apiMiddleware ["POST"%string] "saveRecipes"%string Scenario.post) tt in
    (Middleware.statusCode (Middleware.response_of (trace r)),
     length (Middleware.handler_calls (trace r)), outcome r) in
  let fine := Middleware.call_returns (Middleware.plain Middleware.undefined) in
  let boom := mkJsError "Error" None "boom" in
  guard (Fulfilled None) fine = (401, 0%nat, Returned Middleware.undefined) /\
  guard (Rejected boom) fine = (500, 0%nat, Returned Middleware.undefined) /\
  guard (Fulfilled (Some Scenario.signed_in)) fine = (200, 1%nat, Returned Middleware.undefined) /\
  guard (Fulfilled (Some Scenario.signed_in)) (Middleware.call_throws boom)
  = (500, 1%nat, Returned Middleware.undefined) /\
  guard (Fulfilled (Some Scenario.signed_in))
        (Middleware.call_returns (Middleware.promise (Rejected boom)))
  = (200, 1%nat, Thrown boom).
Proof. vm_compute. repeat split. Qed.

(** * Further properties of the code *)

(** ** More on the download and on one upload *)

Section UploadMore.

Import S3.

Variable refuses : string -> option JsError.

Context {W : Type} (h : handler answer W).




(** The run of [uploadImageToS3] when there is a link and a client: the
    download, then the S3 command if the download resolved, then one line
    on the console. *)
Lemma uploadImageToS3_configured env arg s s3 :
  truthy_string (UploadToS3Type.originalImgLink arg) = true ->
  configureS3 env = Some s3 ->
  let d := run h (processImage refuses (default ""%string (UploadToS3Type.originalImgLink arg)) None None) s in
  let r := run h (uploadImageToS3 refuses env arg) s in
  exists put line,
    trace r = trace d ++ put ++ [line] /\
    requests [line] = [] /\ sends [line] = [] /\ network [line] = [] /\
    match outcome d with
    | Returned body =>
        exists sent,
          put = [Entry (answer := answer)
                   (s3_send s3
                      {| Bucket := S3_BUCKET_NAME env;
                         Key := UploadToS3Type.location arg;
                         Body := body;
                         ContentType := "image/png";
                         ACL := "public-read";
                         Tagging := ("userId=" ++ show_optional id (UploadToS3Type.userId arg))%string;
                         CacheControl := "public, max-age=2592000" |}) sent]
    | Thrown _ => put = []
    end.
Proof.
  intros Hlink Hs3 d r. subst r. unfold uploadImageToS3, upload_try.
  rewrite Hlink, Hs3. cbn [negb]. rewrite run_try_catch, run_bind. fold d.
  destruct (outcome d) as [body|e] eqn:Hd; cbn [outcome trace final].
  - rewrite run_Vis.
    match goal with |- context [h (s3_send ?c ?m) ?w] => destruct (h (s3_send c m) w) as [[u|e] s1] end;
      cbn [fst snd await bind]; rewrite ?run_Vis; cbn [outcome trace final run fst snd].
    + eexists [_], _. split; [rewrite <- ?app_assoc; reflexivity|]. repeat split; eauto.
    + destruct (upload_catch_run h arg e s1) as (text & method & ->). cbn [outcome trace final].
      eexists [_], _. split; [rewrite <- ?app_assoc; reflexivity|]. repeat split; eauto.
  - destruct (upload_catch_run h arg e (final d)) as (text & method & ->). cbn [outcome trace final].
    eexists [], _. split; [reflexivity|]. repeat split; eauto.
Qed.

(** Without a link or without a client, one line on the console is all
    that happens. *)
Lemma uploadImageToS3_unconfigured env arg s :
  truthy_string (UploadToS3Type.originalImgLink arg) = false \/ configureS3 env = None ->
  exists line,
    trace (run h (uploadImageToS3 refuses env arg) s) = [line] /\
    requests [line] = [] /\ sends [line] = [] /\ network [line] = [].
Proof.
  intros Hmissing. unfold uploadImageToS3, upload_try.
  destruct (truthy_string (UploadToS3Type.originalImgLink arg)) eqn:Hlink; cbn [negb try_catch].
  - destruct Hmissing as [|Hs3]; [done|]. rewrite Hs3. cbn [try_catch].
    destruct (upload_catch_run h arg (new_Error "Unable to configure S3") s)
      as (text & method & ->). eauto.
  - destruct (upload_catch_run h arg (new_Error "Image link is undefined") s)
      as (text & method & ->). eauto.
Qed.

(** X1. [uploadImageToS3] sends at most one S3 command, and only after the
    download resolved.  The command stores, under the [location] of the
    input as key, exactly the bytes of the response that completed with a
    2xx status, in the bucket of [S3_BUCKET_NAME], as a public-read
    [image/png] tagged with the user. *)
Theorem uploadImageToS3_puts_the_download (env : ProcessEnv) (arg : UploadToS3Type.t) (s : W) :
  let r := run h (uploadImageToS3 refuses env arg) s in
  sends (trace r) = [] \/
  exists command sent earlier url o,
    sends (trace r) = [(command, sent)] /\
    requests (trace r) = earlier ++ [(url, o)] /\
    succeeded o = true /\
    Body command = downloaded o /\
    Key command = UploadToS3Type.location arg /\
    Bucket command = S3_BUCKET_NAME env /\
    ContentType command = "image/png"%string /\
    ACL command = "public-read"%string /\
    Tagging command = ("userId=" ++ show_optional id (UploadToS3Type.userId arg))%string.
Proof.
  intros r. subst r.
  destruct (truthy_string (UploadToS3Type.originalImgLink arg)) eqn:Hlink;
    [destruct (configureS3 env) as [s3|] eqn:Hs3|].
  - destruct (uploadImageToS3_configured env arg s s3 Hlink Hs3)
      as (put & line & -> & Hreq & Hsend & _ & Hput).
    rewrite !sends_app, !requests_app, Hreq, Hsend, !app_nil_r.
    destruct (refuses (default ""%string (UploadToS3Type.originalImgLink arg)))
      as [thrown|] eqn:Haccepted.
    { unfold processImage in *.
      rewrite (attempt_refused refuses h _ _ _ thrown s Haccepted) in *.
      cbn [outcome trace] in *. subst put. by left. }
    pose proof (attempt_run refuses h (default ""%string (UploadToS3Type.originalImgLink arg))
                  (default 1500 None) _ Haccepted (default 3 None) s eq_refl)
      as (_ & _ & Hnone & earlier & o & Hattempts & _ & Hout).
    fold (processImage refuses (default ""%string (UploadToS3Type.originalImgLink arg)) None None)
      in Hnone, Hattempts, Hout.
    rewrite Hnone.
    destruct (outcome (run h (processImage refuses _ None None) s)) as [body|e].
    + destruct Hput as [sent ->]. destruct Hout as [Hok ->]. right.
      eexists _, sent, earlier, _, o. cbn. rewrite app_nil_r. by repeat split.
    + subst put. by left.
  - left. by destruct (uploadImageToS3_unconfigured env arg s (or_intror Hs3))
      as (line & -> & _ & -> & _).
  - left. by destruct (uploadImageToS3_unconfigured env arg s (or_introl Hlink))
      as (line & -> & _ & -> & _).
Qed.

(** X2. Without usable credentials ([AWS_ACCESS_KEY_ID] or
    [AWS_SECRET_ACCESS_KEY] unset or empty) [uploadImageToS3] does not even
    download the image: no HTTPS request, no timer, no S3 command, and the
    result is [{ location, uploaded: false }]. *)
Theorem uploadImageToS3_without_credentials (env : ProcessEnv) (arg : UploadToS3Type.t) (s : W) :
  truthy_string (AWS_ACCESS_KEY_ID env) = false \/
  truthy_string (AWS_SECRET_ACCESS_KEY env) = false ->
  let r := run h (uploadImageToS3 refuses env arg) s in
  outcome r = Returned (UploadReturnType.mk (UploadToS3Type.location arg) false) /\
  network (trace r) = [] /\
  sends (trace r) = [].
Proof.
  intros Hkeys r. subst r.
  assert (configureS3 env = None) as Hs3.
  { unfold configureS3. destruct Hkeys as [-> | ->]; [done | by rewrite andb_false_r]. }
  destruct (uploadImageToS3_unconfigured env arg s (or_intror Hs3))
    as (line & Htrace & _ & Hsend & Hnet).
  rewrite Htrace. split; [|done].
  unfold uploadImageToS3, upload_try. rewrite Hs3.
  destruct (truthy_string (UploadToS3Type.originalImgLink arg)); cbn [negb try_catch].
  - by destruct (upload_catch_run h arg (new_Error "Unable to configure S3") s)
      as (text & method & ->).
  - by destruct (upload_catch_run h arg (new_Error "Image link is undefined") s)
      as (text & method & ->).
Qed.


End UploadMore.

Lemma uploadImageToS3_without_credentials_witness :
  let world := Scenario.scripted Scenario.third_time_lucky (Fulfilled tt) in
  (truthy_string (S3.AWS_ACCESS_KEY_ID Scenario.no_keys) = false \/
   truthy_string (S3.AWS_SECRET_ACCESS_KEY Scenario.no_keys) = false) /\
  let r := run world (S3.uploadImageToS3 Scenario.https_only Scenario.no_keys (Scenario.image "a.png")) 0%nat in
  outcome r = Returned (UploadReturnType.mk
                          (UploadToS3Type.location (Scenario.image "a.png")) false) /\
  S3.network (trace r) = [] /\
  S3.sends (trace r) = [].
Proof.
  intros world. split; [left; reflexivity|].
  apply (uploadImageToS3_without_credentials Scenario.https_only world Scenario.no_keys (Scenario.image "a.png") 0%nat).
  left; reflexivity.
Defined.

Section DownloadLog.

Import S3.

Variable refuses : string -> option JsError.

Context {W : Type} (h : handler answer W).

Lemma attempt_logged url delay (k : nat) :
  refuses url = None ->
  forall n s,
    Z.to_nat n = k ->
    let r := run h (attempt refuses url delay n) s in
    (logged console_warn (trace r) + 1)%nat = length (requests (trace r)) /\
    logged console_error (trace r) = match outcome r with
                                     | Returned _ => 0%nat
                                     | Thrown _ => 1%nat
                                     end /\
    logged console_log (trace r) = 0%nat.
Proof.
  intros Haccepted.
  induction k as [|k IH]; intros n s Hk; rewrite attempt_equation_1, Haccepted, run_Vis;
    destruct (h (https_request url) s) as [o s1]; cbn [fst snd];
    destruct o as [response|err].
  all: try destruct (status_ok (statusCode response)) eqn:Hok.
  all: destruct (Z_lt_dec 0 n) as [Hn|Hn]; try lia.
  all: rewrite ?run_Vis; cbn [fst snd outcome trace final].
  all: try (match goal with
            | |- context [run h (attempt _ _ _ ?m) ?w] =>
                destruct (IH m w ltac:(lia)) as (Hwarn & Herror & Hlog);
                set (r' := run h (attempt refuses url delay m) w) in *
            end;
            unfold logged, requests in *; cbn in *; repeat split; lia).
  all: by cbn.
Qed.

(** X4. For a URL [https.request] accepts, [processImage] writes one
    warning for every retry (one less than the number of requests it
    makes), one error line when it gives up and none when it resolves, and
    nothing with [console.log]. *)
Theorem processImage_logging (url : string) (retries delay : option Z) (s : W) :
  refuses url = None ->
  let r := run h (processImage refuses url retries delay) s in
  (logged console_warn (trace r) + 1)%nat = length (requests (trace r)) /\
  logged console_error (trace r) = match outcome r with
                                   | Returned _ => 0%nat
                                   | Thrown _ => 1%nat
                                   end /\
  logged console_log (trace r) = 0%nat.
Proof.
  intros Haccepted. unfold processImage.
  apply (attempt_logged url (default 1500 delay) (Z.to_nat (default 3 retries)));
    [exact Haccepted | done].
Qed.

End DownloadLog.

Lemma processImage_logging_witness :
  let world := Scenario.scripted Scenario.third_time_lucky (Fulfilled tt) in
  let url := "https://images.example.com/a.png"%string in
  Scenario.https_only url = None /\
  let r := run world (S3.processImage Scenario.https_only url None None) 0%nat in
  (S3.logged console_warn (trace r) + 1)%nat = length (S3.requests (trace r)) /\
  S3.logged console_error (trace r) = match outcome r with
                                      | Returned _ => 0%nat
                                      | Thrown _ => 1%nat
                                      end /\
  S3.logged console_log (trace r) = 0%nat.
Proof.
  intros world url. split; [reflexivity|].
  apply (processImage_logging Scenario.https_only world url None None 0%nat). reflexivity.
Defined.

(** ** More on calls in flight together *)

Section MemorylessFacts.

Context {effect : Type} {answer : effect -> Type} {A W : Type}.

Implicit Types (c : fanout answer A W) (p q : prog answer A) (ps : list (prog answer A)).

Lemma follow_run (f : forall e : effect, answer e) p (s : W) :
  outcome (run (memoryless f) p s) = follow f p.
Proof. revert s; induction p as [a|e|e k IH]; intros s; simpl; auto. Qed.

(** With no calls in flight the event loop has nothing to do. *)
Lemma interleave_nothing (h : handler answer W) schedule c :
  tasks c = [] -> interleave h schedule c = c.
Proof.
  intros Hnone. induction schedule as [|i schedule IH]; [done|].
  rewrite interleave_cons. unfold resume at 1. by rewrite Hnone.
Qed.

Lemma heads_for_resume f ps i c :
  heads_for f ps c -> heads_for f ps (resume (memoryless f) i c).
Proof.
  intros Hinv j p Hj. destruct (Hinv j p Hj) as (q & Hq & Hsame).
  unfold resume. destruct (tasks c !! i) as [[a|e|e k]|] eqn:Hi; eauto.
  simpl. destruct (decide (i = j)) as [->|Hij].
  - rewrite Hq in Hi. injection Hi as ->. exists (k (f e)). split; [|done].
    apply list_lookup_insert_eq. by eapply lookup_lt_Some.
  - exists q. split; [by rewrite list_lookup_insert_ne | done].
Qed.

Lemma heads_for_interleave f ps schedule c :
  heads_for f ps c -> heads_for f ps (interleave (memoryless f) schedule c).
Proof.
  revert c; induction schedule as [|i schedule IH]; intros c Hinv; [done|].
  rewrite interleave_cons. apply IH. by apply heads_for_resume.
Qed.

End MemorylessFacts.

Section UploadAllMore.

Import S3.

Variable refuses : string -> option JsError.

Context {W : Type}.

(** X5. For an empty array [uploadImagesToS3] is fulfilled with an empty
    array at once, whatever the event loop does, and nothing is requested,
    sent or logged. *)
Theorem uploadImagesToS3_empty (env : ProcessEnv) (h : handler answer W)
  (schedule : list nat) (s : W) :
  uploadImagesToS3 refuses env h schedule [] s = Some (Some []) /\
  history (uploadImagesToS3_calls refuses env h schedule [] s) = [] /\
  world (uploadImagesToS3_calls refuses env h schedule [] s) = s.
Proof.
  unfold uploadImagesToS3, uploadImagesToS3_calls.
  by rewrite interleave_nothing.
Qed.

(** X6. In a world without memory (each request, timer and S3 command is
    answered the same way whenever it is made) the order in which the calls
    are resumed does not matter: a fulfilled [uploadImagesToS3] holds, for
    each element of the input in order, exactly what [uploadImageToS3] of
    that element returns when run alone. *)
Theorem uploadImagesToS3_as_map (env : ProcessEnv) (f : forall e : effect, answer e)
  (schedule : list nat) (arr : list UploadToS3Type.t) (s : W)
  (results : list UploadReturnType.t) :
  uploadImagesToS3 refuses env (memoryless f) schedule arr s = Some (Some results) ->
  Returned <$> results
  = (fun arg => outcome (run (memoryless f) (uploadImageToS3 refuses env arg) s)) <$> arr.
Proof.
  intros Hresults.
  pose proof (uploadImagesToS3_calls_length refuses (memoryless f) env schedule arr s) as Hlen.
  pose proof (uploadImagesToS3_values refuses (memoryless f) env schedule arr s results Hresults)
    as Hvalues.
  assert (heads_for f (uploadImageToS3 refuses env <$> arr)
            (uploadImagesToS3_calls refuses env (memoryless f) schedule arr s)) as Hheads.
  { apply heads_for_interleave. intros i p Hi. exists p. by split. }
  apply list_eq. intros i. rewrite !list_lookup_fmap.
  destruct (arr !! i) as [arg|] eqn:Harg; simpl.
  - destruct (Hheads i (uploadImageToS3 refuses env arg)) as (q & Hq & Hsame);
      [by rewrite list_lookup_fmap, Harg|].
    destruct (Forall2_lookup_l _ _ _ _ _ Hvalues Hq) as (result & -> & ->).
    simpl. by rewrite follow_run, <- Hsame.
  - apply lookup_ge_None in Harg.
    rewrite (proj2 (lookup_ge_None results i)); [done|].
    apply Forall2_length in Hvalues. lia.
Qed.

End UploadAllMore.

Lemma uploadImagesToS3_as_map_witness :
  let arr := [Scenario.image "a.png"; Scenario.image "b.png"] in
  let schedule := [1; 0; 0; 1; 1; 0]%nat in
  let results := [UploadReturnType.mk "recipes/a.png" true;
                  UploadReturnType.mk "recipes/b.png" true] in
  S3.uploadImagesToS3 Scenario.https_only Scenario.env (memoryless Scenario.all_fine) schedule arr tt
  = Some (Some results) /\
  Returned <$> results
  = (fun arg => outcome (run (memoryless Scenario.all_fine)
                           (S3.uploadImageToS3 Scenario.https_only Scenario.env arg) tt)) <$> arr.
Proof.
  intros arr schedule results.
  assert (S3.uploadImagesToS3 Scenario.https_only Scenario.env (memoryless Scenario.all_fine) schedule arr tt
          = Some (Some results)) as Hresults by (vm_compute; reflexivity).
  split; [exact Hresults|].
  apply (uploadImagesToS3_as_map Scenario.https_only Scenario.env Scenario.all_fine schedule arr tt results Hresults).
Defined.

(** ** Uploading audio *)

Section AudioUpload.

Import Audio.

Context {W : Type} (h : handler answer W).

Ltac answered :=
  repeat match goal with
         | |- context [h ?e ?s] => destruct (h e s) as [? ?]; cbn
         end.

(** The run of [uploadAudioToS3], case by case. *)
Lemma uploadAudioToS3_run (env : S3.ProcessEnv) (audioBuffer : S3.Buffer) (fileName : string)
  (s : W) :
  let r := run h (uploadAudioToS3 env audioBuffer fileName) s in
  let command :=
    {| Bucket := S3.S3_BUCKET_NAME env;
       Key := ("audio/" ++ fileName)%string;
       Body := audioBuffer;
       ContentType := "audio/mpeg";
       CacheControl := "public, max-age=2592000";
       ACL := "public-read" |} in
  match S3.configureS3 env with
  | None =>
      sends (trace r) = [] /\
      outcome r = Thrown (new_Error ("Failed to upload audio to S3: "
                                     ++ Error_toString (new_Error "Unable to configure S3"))%string)
  | Some s3 =>
      exists sent,
        sends (trace r) = [(s3, command, sent)] /\
        outcome r = match sent with
                    | Fulfilled _ => Returned (s3Url env fileName)
                    | Rejected cause =>
                        Thrown (new_Error ("Failed to upload audio to S3: "
                                           ++ Error_toString cause)%string)
                    end
  end.
Proof.
  unfold uploadAudioToS3. destruct (S3.configureS3 env) as [s3|]; cbn.
  - destruct (h (s3_send s3 _) s) as [[u|cause] s1]; cbn; answered; eauto.
  - answered. done.
Qed.

(** X7. [uploadAudioToS3] sends exactly one S3 command when a client can be
    configured and none otherwise.  The command stores the given buffer
    under the key ["audio/" + fileName] in the bucket of [S3_BUCKET_NAME], as
    a public-read [audio/mpeg] object, through the client [configureS3]
    returns. *)
Theorem uploadAudioToS3_command (env : S3.ProcessEnv) (audioBuffer : S3.Buffer)
  (fileName : string) (s : W) :
  let r := run h (uploadAudioToS3 env audioBuffer fileName) s in
  match S3.configureS3 env with
  | None => sends (trace r) = []
  | Some s3 =>
      exists command sent,
        sends (trace r) = [(s3, command, sent)] /\
        Key command = ("audio/" ++ fileName)%string /\
        Body command = audioBuffer /\
        Bucket command = S3.S3_BUCKET_NAME env /\
        ContentType command = "audio/mpeg"%string /\
        ACL command = "public-read"%string
  end.
Proof.
  intros r. pose proof (uploadAudioToS3_run env audioBuffer fileName s) as Hrun.
  cbv zeta in Hrun. fold r in Hrun.
  destruct (S3.configureS3 env) as [s3|].
  - destruct Hrun as (sent & Hsends & _). eexists _, sent. by rewrite Hsends.
  - by destruct Hrun.
Qed.

(** X8. Unlike the image upload, [uploadAudioToS3] does not swallow errors.
    It resolves exactly when its S3 command was accepted.  When no client
    can be configured, or S3 refuses the command, it rejects with a new
    error whose message is ["Failed to upload audio to S3: "] followed by
    the cause. *)
Theorem uploadAudioToS3_outcome (env : S3.ProcessEnv) (audioBuffer : S3.Buffer)
  (fileName : string) (s : W) :
  let r := run h (uploadAudioToS3 env audioBuffer fileName) s in
  match outcome r with
  | Returned url =>
      url = s3Url env fileName /\
      exists s3 command u, sends (trace r) = [(s3, command, Fulfilled u)]
  | Thrown e =>
      exists cause,
        e = new_Error ("Failed to upload audio to S3: " ++ Error_toString cause)%string /\
        (sends (trace r) = [] /\ cause = new_Error "Unable to configure S3" \/
         exists s3 command, sends (trace r) = [(s3, command, Rejected cause)])
  end.
Proof.
  intros r. pose proof (uploadAudioToS3_run env audioBuffer fileName s) as Hrun.
  cbv zeta in Hrun. fold r in Hrun.
  destruct (S3.configureS3 env) as [s3|].
  - destruct Hrun as ([u|cause] & Hsends & ->).
    + split; [done|]. eauto.
    + exists cause. split; [done|]. right. eauto.
  - destruct Hrun as [Hsends ->]. eexists. split; [done|]. by left.
Qed.


(** X10. When [AWS_REGION] is not set, the client is configured for
    [us-east-2], but the URL [uploadAudioToS3] returns is built from the
    missing variable and names the region ["undefined"]. *)
Theorem uploadAudioToS3_url_without_region (env : S3.ProcessEnv) (audioBuffer : S3.Buffer)
  (fileName : string) (s : W) (url : string) :
  S3.AWS_REGION env = None ->
  outcome (run h (uploadAudioToS3 env audioBuffer fileName) s) = Returned url ->
  exists s3 command sent,
    sends (trace (run h (uploadAudioToS3 env audioBuffer fileName) s)) = [(s3, command, sent)] /\
    S3.region s3 = "us-east-2"%string /\
    url = ("https://" ++ show_optional id (Bucket command) ++ ".s3.undefined.amazonaws.com/"
           ++ Key command)%string.
Proof.
  intros Hregion Hurl. pose proof (uploadAudioToS3_run env audioBuffer fileName s) as Hrun.
  cbv zeta in Hrun.
  destruct (S3.configureS3 env) as [s3|] eqn:Hs3.
  - destruct Hrun as (sent & Hsends & Hout). rewrite Hout in Hurl.
    destruct sent as [u|cause]; [|done]. injection Hurl as <-.
    eexists s3, _, _. split; [exact Hsends|]. cbn.
    unfold S3.configureS3 in Hs3.
    destruct (truthy_string (S3.AWS_ACCESS_KEY_ID env)
              && truthy_string (S3.AWS_SECRET_ACCESS_KEY env)); [|done].
    injection Hs3 as <-. cbn. unfold s3Url. rewrite Hregion. cbn.
    split; reflexivity.
  - destruct Hrun as [_ Hout]. by rewrite Hout in Hurl.
Qed.

End AudioUpload.


Lemma uploadAudioToS3_url_without_region_witness :
  let world := Scenario.bucket (Fulfilled tt) in
  let audio := [Byte.x49; Byte.x44; Byte.x33] in
  let url := "https://smart-recipe-generator.s3.undefined.amazonaws.com/audio/recipe-1.mp3"%string in
  S3.AWS_REGION Scenario.env = None /\
  outcome (run world (Audio.uploadAudioToS3 Scenario.env audio "recipe-1.mp3") tt)
  = Returned url /\
  exists s3 command sent,
    Audio.sends (trace (run world (Audio.uploadAudioToS3 Scenario.env audio "recipe-1.mp3") tt))
    = [(s3, command, sent)] /\
    S3.region s3 = "us-east-2"%string /\
    url = ("https://" ++ show_optional id (Audio.Bucket command) ++ ".s3.undefined.amazonaws.com/"
           ++ Audio.Key command)%string.
Proof.
  intros world audio url.
  assert (S3.AWS_REGION Scenario.env = None) as Hregion by reflexivity.
  assert (outcome (run world (Audio.uploadAudioToS3 Scenario.env audio "recipe-1.mp3") tt)
          = Returned url) as Hurl by (vm_compute; reflexivity).
  split; [exact Hregion|]. split; [exact Hurl|].
  apply (uploadAudioToS3_url_without_region world Scenario.env audio "recipe-1.mp3" tt url
           Hregion Hurl).
Defined.

(** ** More on connecting to the database *)

Section ConnectMore.

Import Mongo.

Context {W : Type}.
Variable connect : string -> ConnectOptions -> W -> settled Mongoose * W.
Variable uri : string.

Lemma connects_app (a b : list (entry answer)) : connects (a ++ b) = connects a ++ connects b.
Proof. apply omap_app. Qed.

Lemma ready_without_connection (a : settled Mongoose) :
  gave_connection a = false -> ready a = false.
Proof. by destruct a as [[[|first rest]]|e]. Qed.

(** A call that finds the flag unset: one connection attempt, which
    decides the outcome and the flag. *)
Lemma connectDB_unset (p : process W) :
  isConnected p = false ->
  let options := {| serverSelectionTimeoutMS := 20000; ssl := true;
                    tlsAllowInvalidCertificates := false |} in
  let attempt := (connect uri options (outside p)).1 in
  let r := run (in_process connect) (connectDB uri) p in
  connects (trace r) = [(uri, options, attempt)] /\
  outcome r = (if gave_connection attempt then Returned tt
               else Thrown (new_Error "MongoDB connection failed")) /\
  isConnected (final r) = ready attempt.
Proof.
  intros Hp. unfold connectDB. cbn. rewrite Hp. cbn.
  destruct (connect uri _ (outside p)) as [[[[|[state] rest]]|e] s1]; cbn; by rewrite ?Hp.
Qed.

(** X11. A call of [connectDB] makes a connection attempt exactly when it
    finds [isConnected] unset, and then only one: to the URI of the module,
    with a server selection timeout of 20 s, with TLS on and invalid
    certificates refused. *)
Theorem connectDB_connects_once (p : process W) :
  connects (trace (run (in_process connect) (connectDB uri) p))
  = if isConnected p then []
    else [(uri,
           {| serverSelectionTimeoutMS := 20000; ssl := true;
              tlsAllowInvalidCertificates := false |},
           (connect uri {| serverSelectionTimeoutMS := 20000; ssl := true;
                           tlsAllowInvalidCertificates := false |} (outside p)).1)].
Proof.
  destruct (isConnected p) eqn:Hp.
  - by rewrite connectDB_connected.
  - by destruct (connectDB_unset p Hp) as [-> _].
Qed.

(** X12. When a call of [connectDB] fails, it rejects with the error
    ["MongoDB connection failed"], whatever the cause was, and leaves
    [isConnected] unset, so that the next call tries to connect again. *)
Theorem connectDB_failure (p : process W) (e : JsError) :
  outcome (run (in_process connect) (connectDB uri) p) = Thrown e ->
  e = new_Error "MongoDB connection failed" /\
  isConnected (final (run (in_process connect) (connectDB uri) p)) = false /\
  length (connects (trace (run (in_process connect) (connectDB uri)
                             (final (run (in_process connect) (connectDB uri) p))))) = 1%nat.
Proof.
  intros Hthrown. destruct (isConnected p) eqn:Hp.
  - by rewrite connectDB_connected in Hthrown.
  - destruct (connectDB_unset p Hp) as (_ & Hout & Hflag). cbv zeta in Hout, Hflag.
    set (r := run (in_process connect) (connectDB uri) p) in *.
    rewrite Hout in Hthrown.
    destruct (gave_connection _) eqn:Hgave in Hthrown; [done|]. injection Hthrown as <-.
    rewrite (ready_without_connection _ Hgave) in Hflag.
    split; [done|]. split; [done|].
    by destruct (connectDB_unset _ Hflag) as [-> _].
Qed.

(** X13. In calls of [connectDB] that run one after another, at most one
    connection attempt ends with a ready connection (one whose [readyState]
    is truthy): after it the flag is set and no further attempt is made. *)
Theorem connectDB_times_one_ready (n : nat) (p0 : process W) :
  (length (List.filter (fun c => ready c.2)
             (connects (mjoin (trace <$> connectDB_times (in_process connect) uri n p0))))
   <= 1)%nat.
Proof.
  cut (length (List.filter (fun c : string * ConnectOptions * settled Mongoose => ready c.2)
                 (connects (mjoin (trace <$> connectDB_times (in_process connect) uri n p0))))
       <= if isConnected p0 then 0 else 1)%nat.
  { destruct (isConnected p0); lia. }
  revert p0. induction n as [|n IH]; intros p0; cbn [connectDB_times fmap list_fmap mjoin list_join].
  - cbn. destruct (isConnected p0); lia.
  - rewrite connects_app, List.filter_app, length_app.
    specialize (IH (final (run (in_process connect) (connectDB uri) p0))).
    destruct (isConnected p0) eqn:Hp.
    + rewrite connectDB_connected in * by done. cbn [final trace] in *.
      rewrite Hp in IH.
      set (rest := length (List.filter _ (connects (mjoin _)))) in *. cbn. lia.
    + destruct (connectDB_unset p0 Hp) as (Hconnects & _ & Hflag). cbv zeta in Hconnects, Hflag.
      rewrite Hconnects. rewrite Hflag in IH.
      set (rest := length (List.filter _ (connects (mjoin _)))) in *. cbn.
      destruct (ready _); cbn; lia.
Qed.

(** X14. The module only loads with a non-empty [MONGO_URI], and the
    [connectDB] it exports connects to that URI and to no other. *)
Theorem connectDB_uses_MONGO_URI (MONGO_URI : option string) (p : process W)
  (c : string * ConnectOptions * settled Mongoose) :
  module_uri MONGO_URI = Returned uri ->
  In c (connects (trace (run (in_process connect) (connectDB uri) p))) ->
  c.1.1 = uri /\ MONGO_URI = Some uri /\ uri <> ""%string.
Proof.
  intros Hload Hin. unfold module_uri in Hload.
  assert (MONGO_URI = Some uri /\ uri <> ""%string) as Huri.
  { destruct MONGO_URI as [u|]; cbn in Hload; [|done].
    destruct (String.eqb u "") eqn:Hu; cbn in Hload; [done|].
    rewrite Hu in Hload. injection Hload as <-. split; [done|].
    intros ->. by rewrite String.eqb_refl in Hu. }
  split; [|done].
  destruct (isConnected p) eqn:Hp.
  - by rewrite connectDB_connected in Hin.
  - destruct (connectDB_unset p Hp) as [Hconnects _]. rewrite Hconnects in Hin.
    by destruct Hin as [<- | []].
Qed.

End ConnectMore.

Lemma connectDB_failure_witness :
  let h := Mongo.in_process Scenario.always_down in
  let p := Mongo.mkProcess false tt in
  let e := new_Error "MongoDB connection failed" in
  outcome (run h (Mongo.connectDB Scenario.uri) p) = Thrown e /\
  e = new_Error "MongoDB connection failed" /\
  Mongo.isConnected (final (run h (Mongo.connectDB Scenario.uri) p)) = false /\
  length (Mongo.connects (trace (run h (Mongo.connectDB Scenario.uri)
                                   (final (run h (Mongo.connectDB Scenario.uri) p))))) = 1%nat.
Proof.
  intros h p e.
  assert (outcome (run h (Mongo.connectDB Scenario.uri) p) = Thrown e) as Hthrown
    by (vm_compute; reflexivity).
  split; [exact Hthrown|].
  apply (connectDB_failure Scenario.always_down Scenario.uri p e Hthrown).
Defined.

Lemma connectDB_uses_MONGO_URI_witness :
  let p := Mongo.mkProcess false tt in
  let options := Mongo.mkConnectOptions 20000 true false in
  let c := (Scenario.uri, options,
            Fulfilled {| Mongo.connections := [ {| Mongo.readyState := 1 |} ] |}) in
  Mongo.module_uri (Some Scenario.uri) = Returned Scenario.uri /\
  In c (Mongo.connects (trace (run (Mongo.in_process Scenario.always_up)
                                 (Mongo.connectDB Scenario.uri) p))) /\
  c.1.1 = Scenario.uri /\ Some Scenario.uri = Some Scenario.uri /\ Scenario.uri <> ""%string.
Proof.
  intros p options c.
  assert (Mongo.module_uri (Some Scenario.uri) = Returned Scenario.uri) as Hload by reflexivity.
  assert (In c (Mongo.connects (trace (run (Mongo.in_process Scenario.always_up)
                                         (Mongo.connectDB Scenario.uri) p)))) as Hin
    by (left; reflexivity).
  split; [exact Hload|]. split; [exact Hin|].
  apply (connectDB_uses_MONGO_URI Scenario.always_up Scenario.uri (Some Scenario.uri) p c Hload Hin).
Defined.

(** ** More on guarding an API route *)

Section GuardMore.

Import Middleware.

Context {Function W : Type}.
Variable h : handler (answer Function) W.

Ltac settle :=
  repeat match goal with
         | |- context [h ?e ?s] => destruct (h e s) as [? ?]; cbn
         end.

(** X15. The wrapped function rejects in one case only: the handler was
    called and returned a promise that rejects; the wrapped function then
    rejects with the same reason.  Everything else, also an exception in the
    [try] block, makes it resolve. *)
Theorem apiMiddleware_rejects_with_handler (methods : list string) (handler : Function)
  (req : NextApiRequest) (s : W) :
  let r := run h (apiMiddleware methods handler req) s in
  match outcome r with
  | Thrown e => handler_rejection (trace r) = Some e
  | Returned _ => handler_rejection (trace r) = None
  end.
Proof.
  unfold apiMiddleware, guarded.
  destruct (methods_include methods (method req)); cbn; [|settle; done].
  destruct (h (getServerSession req) s) as [[[session|]|e] s1]; cbn; [|settle; done..].
  destruct (h (call handler req session) s1) as [[[v|[v|e]]|e] s2]; cbn; settle; done.
Qed.

(** X16. The guard asks for the session at most once and calls the handler
    at most once.  It sends exactly one response of its own, except when it
    called the handler and the handler did not throw: then it sends none
    and the response is left to the handler. *)
Theorem apiMiddleware_one_response (methods : list string) (handler : Function)
  (req : NextApiRequest) (s : W) :
  let r := run h (apiMiddleware methods handler req) s in
  (session_lookups (trace r) <= 1)%nat /\
  (length (handler_calls (trace r)) <= 1)%nat /\
  guard_sends (trace r)
  = match handler_calls (trace r) with
    | [] => 1%nat
    | _ :: _ => if threw (trace r) then 1%nat else 0%nat
    end.
Proof.
  unfold apiMiddleware, guarded.
  destruct (methods_include methods (method req)); cbn; [|settle; repeat split; lia].
  destruct (h (getServerSession req) s) as [[[session|]|e] s1]; cbn;
    [|settle; repeat split; lia..].
  destruct (h (call handler req session) s1) as [[[v|[v|e]]|e] s2]; cbn; settle;
    repeat split; lia.
Qed.

(** X17. What the handler hands back is what the wrapped function resolves
    with: the value the handler returned, or the value its promise was
    fulfilled with.  The guard then sends nothing of its own. *)
Theorem apiMiddleware_hands_back (methods : list string) (handler : Function)
  (req : NextApiRequest) (s : W) (v : JsValue) :
  handler_value (trace (run h (apiMiddleware methods handler req) s)) = Some v ->
  outcome (run h (apiMiddleware methods handler req) s) = Returned v /\
  guard_sends (trace (run h (apiMiddleware methods handler req) s)) = 0%nat.
Proof.
  unfold apiMiddleware, guarded.
  destruct (methods_include methods (method req)); cbn; [|settle; done].
  destruct (h (getServerSession req) s) as [[[session|]|e] s1]; cbn; [|settle; done..].
  destruct (h (call handler req session) s1) as [[[v'|[v'|e]]|e] s2]; cbn; settle;
    try done; by intros [= ->].
Qed.

End GuardMore.

Lemma apiMiddleware_hands_back_witness :
  let reply := Middleware.obj [("saved", "3")%string] in
  let h := Scenario.route (Fulfilled (Some Scenario.signed_in))
             (Middleware.call_returns (Middleware.promise (Fulfilled reply))) in
  let r := run h (Middleware.apiMiddleware ["POST"%string] "saveRecipes"%string Scenario.post) tt in
  Middleware.handler_value (trace r) = Some reply /\
  outcome r = Returned reply /\
  Middleware.guard_sends (trace r) = 0%nat.
Proof.
  intros reply h r.
  assert (Middleware.handler_value (trace r) = Some reply) as Hvalue by (vm_compute; reflexivity).
  split; [exact Hvalue|].
  apply (apiMiddleware_hands_back h ["POST"%string] "saveRecipes"%string Scenario.post tt reply
           Hvalue).
Defined.

(** ** The sign-in callbacks *)

Section SignIn.

Import Auth.

Lemma refreshed_same (n : nat) (token : JWT.t) : refreshed n token = token.
Proof. induction n as [|n IH]; simpl; auto. Qed.

(** X18. Signing in reaches the session: after the [jwt] callback has seen
    a user with a non-empty id, the [session] callback puts that id in
    [session.user.id], on the sign-in request and on every later request
    (when [jwt] runs without a user), and leaves the rest of the session as
    it was. *)
Theorem session_carries_user_id (token : JWT.t) (user : User.t) (n : nat)
  (current : Session.t) (shown : SessionUser.t) :
  User.id user <> ""%string ->
  Session.user current = Some shown ->
  session current (Some (refreshed n (jwt token (Some user))))
  = Returned (Session.mk
                (Some (SessionUser.mk (Some (User.id user)) (SessionUser.name shown)
                                      (SessionUser.email shown) (SessionUser.image shown)))
                (Session.expires current)).
Proof.
  intros Hid Huser. rewrite refreshed_same. unfold session, jwt. cbn.
  destruct (String.eqb (User.id user) "") eqn:Hempty.
  - by apply String.eqb_eq in Hempty.
  - cbn. by rewrite Huser.
Qed.

(** X19. When the [session] callback returns, it has changed nothing but
    [session.user.id]: the expiry and the name, e-mail and image of the user
    are as they were, and the id is the subject of the token if the token
    has a non-empty one and is left alone otherwise. *)
Theorem session_changes_only_id (current : Session.t) (token : option JWT.t)
  (result : Session.t) :
  session current token = Returned result ->
  Session.expires result = Session.expires current /\
  SessionUser.name <$> Session.user result = SessionUser.name <$> Session.user current /\
  SessionUser.email <$> Session.user result = SessionUser.email <$> Session.user current /\
  SessionUser.image <$> Session.user result = SessionUser.image <$> Session.user current /\
  Session.user result ≫= SessionUser.id
  = if truthy_string (token ≫= JWT.sub) then token ≫= JWT.sub
    else Session.user current ≫= SessionUser.id.
Proof.
  unfold session. destruct (truthy_string (token ≫= JWT.sub)).
  - destruct (Session.user current) as [shown|]; [|done]. by intros [= <-].
  - by intros [= <-].
Qed.

End SignIn.

Lemma session_carries_user_id_witness :
  Auth.User.id Scenario.ada <> ""%string /\
  Auth.Session.user Scenario.fresh_session
  = Some (Auth.SessionUser.mk None (Some "Ada"%string) (Some "ada@example.com"%string) None) /\
  Auth.session Scenario.fresh_session
    (Some (Auth.refreshed 2 (Auth.jwt Scenario.fresh_token (Some Scenario.ada))))
  = Returned (Auth.Session.mk
                (Some (Auth.SessionUser.mk (Some "user-1"%string) (Some "Ada"%string)
                                           (Some "ada@example.com"%string) None))
                "2026-12-01").
Proof.
  assert (Auth.User.id Scenario.ada <> ""%string) as Hid by discriminate.
  assert (Auth.Session.user Scenario.fresh_session
          = Some (Auth.SessionUser.mk None (Some "Ada"%string)
                    (Some "ada@example.com"%string) None)) as Huser by reflexivity.
  split; [exact Hid|]. split; [exact Huser|].
  apply (session_carries_user_id Scenario.fresh_token Scenario.ada 2 Scenario.fresh_session
           _ Hid Huser).
Defined.

Lemma session_changes_only_id_witness :
  let token := Some (Auth.jwt Scenario.fresh_token (Some Scenario.ada)) in
  let result := Auth.Session.mk
                  (Some (Auth.SessionUser.mk (Some "user-1"%string) (Some "Ada"%string)
                                             (Some "ada@example.com"%string) None))
                  "2026-12-01" in
  Auth.session Scenario.fresh_session token = Returned result /\
  Auth.Session.expires result = Auth.Session.expires Scenario.fresh_session /\
  Auth.SessionUser.name <$> Auth.Session.user result
  = Auth.SessionUser.name <$> Auth.Session.user Scenario.fresh_session /\
  Auth.SessionUser.email <$> Auth.Session.user result
  = Auth.SessionUser.email <$> Auth.Session.user Scenario.fresh_session /\
  Auth.SessionUser.image <$> Auth.Session.user result
  = Auth.SessionUser.image <$> Auth.Session.user Scenario.fresh_session /\
  Auth.Session.user result ≫= Auth.SessionUser.id
  = if truthy_string (token ≫= Auth.JWT.sub) then token ≫= Auth.JWT.sub
    else Auth.Session.user Scenario.fresh_session ≫= Auth.SessionUser.id.
Proof.
  intros token result.
  assert (Auth.session Scenario.fresh_session token = Returned result) as Hresult by reflexivity.
  split; [exact Hresult|].
  apply (session_changes_only_id Scenario.fresh_session token result Hresult).
Defined.

(** ** What counts as a download *)

Section DownloadStatus.

Import S3.

Variable refuses : string -> option JsError.

Context {W : Type} (h : handler answer W).

(** X20. [processImage] resolves only with the body of a response whose
    status is between 200 and 299: the last request it made ended with such
    a response, and the bytes are the chunks of that response, in order.  A
    redirect or any other status is treated as a failed attempt. *)
Theorem processImage_resolves_with_2xx (url : string) (retries delay : option Z) (s : W)
  (body : Buffer) :
  outcome (run h (processImage refuses url retries delay) s) = Returned body ->
  exists earlier response c,
    requests (trace (run h (processImage refuses url retries delay) s))
    = earlier ++ [(url, response_end response)] /\
    statusCode response = Some c /\
    200 <= c < 300 /\
    body = List.concat (data response).
Proof.
  intros Hbody. unfold processImage in *.
  destruct (refuses url) as [thrown|] eqn:Haccepted.
  { by rewrite (attempt_refused refuses h url _ _ thrown s Haccepted) in Hbody. }
  destruct (attempt_run refuses h url (default 1500 delay) _ Haccepted (default 3 retries) s eq_refl)
    as (_ & _ & _ & earlier & o & Hreq & _ & Hout).
  rewrite Hbody in Hout. destruct Hout as [Hok ->].
  destruct o as [response|err]; [|done]. cbn in Hok.
  apply status_ok_range in Hok. destruct Hok as (c & Hstatus & Hrange).
  by exists earlier, response, c.
Qed.

End DownloadStatus.

Lemma processImage_resolves_with_2xx_witness :
  let world := Scenario.scripted Scenario.third_time_lucky (Fulfilled tt) in
  let url := "https://images.example.com/a.png"%string in
  let body := [Byte.x89; Byte.x50; Byte.x4e; Byte.x47] in
  outcome (run world (S3.processImage Scenario.https_only url None None) 0%nat) = Returned body /\
  exists earlier response c,
    S3.requests (trace (run world (S3.processImage Scenario.https_only url None None) 0%nat))
    = earlier ++ [(url, S3.response_end response)] /\
    S3.statusCode response = Some c /\
    200 <= c < 300 /\
    body = List.concat (S3.data response).
Proof.
  intros world url body.
  assert (outcome (run world (S3.processImage Scenario.https_only url None None) 0%nat) = Returned body) as Hbody
    by (vm_compute; reflexivity).
  split; [exact Hbody|].
  apply (processImage_resolves_with_2xx Scenario.https_only world url None None 0%nat body Hbody).
Defined.

(** A link [https.request] refuses is one more error the [catch] block of
    [uploadImageToS3] downgrades: nothing is requested or sent. *)
Example uploadImageToS3_refused_link :
  let arg := UploadToS3Type.mk (Some "not a url"%string) (Some "user-1"%string) "recipes/c.png" in
  let r := run (Scenario.scripted Scenario.third_time_lucky (Fulfilled tt))
               (S3.uploadImageToS3 Scenario.https_only Scenario.env arg) 0%nat in
  outcome r = Returned (UploadReturnType.mk "recipes/c.png" false) /\
  S3.requests (trace r) = [] /\
  S3.sends (trace r) = [] /\
  S3.logged console_error (trace r) = 1%nat.
Proof. vm_compute. repeat split. Qed.
